(** * WebContainerTransport: a shallow embedding of [webcontainer-transport.ts]

    The development follows the class [WebContainerTransport]:
    - JavaScript strings are lists of UTF-16 code units;
    - the two regular-expression replacements, [String.prototype.split] and
      [String.prototype.trim] used by [_handleProcessOutput] are functions
      on such lists;
    - the asynchronous methods [start], [send], [close] and the output
      handler run in a small monad that threads the private fields of the
      instance, may throw, and logs every callback firing and every call
      into the WebContainer runtime. *)

From Stdlib Require Import NArith String Ascii Sorted.
From stdpp Require Import base option list gmap.

Local Open Scope N_scope.

(** ** JavaScript strings *)

Module JS.

(** A UTF-16 code unit, and a string of them.  (Abbreviations, so that the
    instances of finite maps keyed by strings are found as for [list N].) *)
Abbreviation char := N (only parsing).
Abbreviation jsstring := (list N) (only parsing).

(** A string literal of the source (all literals of the file are ASCII). *)
Definition lit (s : string) : jsstring :=
  map N_of_ascii (list_ascii_of_string s).

Arguments lit : simpl never.

Definition ESC : char := 27.   (* \x1b *)
Definition CR  : char := 13.   (* \r *)
Definition LF  : char := 10.   (* \n *)
Definition LBRACKET : char := 91.

(** The character classes [[0-9;]] and [[a-zA-Z]]. *)
Definition is_param (c : char) : bool :=
  ((48 <=? c) && (c <=? 57)) || (c =? 59).
Definition is_letter (c : char) : bool :=
  ((65 <=? c) && (c <=? 90)) || ((97 <=? c) && (c <=? 122)).

(** [[0-9;]*[a-zA-Z]] anchored at the head of [s]: the number of code units
    matched.  The two classes are disjoint, so the greedy star never has to
    give a character back. *)
Fixpoint csi_tail (s : jsstring) : option nat :=
  match s with
  | [] => None
  | c :: t =>
      if is_letter c then Some 1%nat
      else if is_param c then S <$> csi_tail t
      else None
  end.

(** [/\x1b\[[0-9;]*[a-zA-Z]/] anchored at the head of [s]. *)
Definition csi_match (s : jsstring) : option nat :=
  match s with
  | e :: b :: t =>
      if (e =? ESC) && (b =? LBRACKET) then (fun n => S (S n)) <$> csi_tail t
      else None
  | _ => None
  end.

(** [s.replace(/\x1b\[[0-9;]*[a-zA-Z]/g, "")]: scanning left to right, a
    match is dropped and the scan resumes after it; where nothing matches
    the code unit is kept.  [skip] counts the code units of the current
    match that are still to be dropped. *)
Fixpoint replace_csi_from (skip : nat) (s : jsstring) : jsstring :=
  match s with
  | [] => []
  | c :: t =>
      match skip with
      | S k => replace_csi_from k t
      | O =>
          match csi_match s with
          | Some (S k) => replace_csi_from k t
          | _ => c :: replace_csi_from 0 t
          end
      end
  end.
Definition replace_csi (s : jsstring) : jsstring := replace_csi_from 0 s.

(** [s.replace(/[\r\x1b]/g, "")]. *)
Definition is_cr_or_esc (c : char) : bool := (c =? CR) || (c =? ESC).
Definition replace_cr_esc (s : jsstring) : jsstring :=
  List.filter (fun c => negb (is_cr_or_esc c)) s.

(** [s.split(/\r?\n/)].  The pattern never matches the empty string, so the
    result always has a last segment (the text after the last separator),
    and [""] splits into [[""]]. *)
Fixpoint split_lines (s : jsstring) : list jsstring :=
  let keep c t :=
    match split_lines t with
    | seg :: segs => (c :: seg) :: segs
    | [] => [[c]]
    end in
  match s with
  | [] => [[]]
  | c :: t =>
      if c =? LF then [] :: split_lines t
      else if c =? CR then
        match t with
        | d :: t' => if d =? LF then [] :: split_lines t' else keep c t
        | [] => keep c t
        end
      else keep c t
  end.

(** White space and line terminators removed by [String.prototype.trim]. *)
Definition is_space (c : char) : bool :=
  ((9 <=? c) && (c <=? 13)) || (c =? 32) || (c =? 160) || (c =? 5760)
  || ((8192 <=? c) && (c <=? 8202)) || (c =? 8232) || (c =? 8233)
  || (c =? 8239) || (c =? 8287) || (c =? 12288) || (c =? 65279).

Fixpoint trim_start (s : jsstring) : jsstring :=
  match s with
  | c :: t => if is_space c then trim_start t else s
  | [] => []
  end.
Definition trim_end (s : jsstring) : jsstring := rev (trim_start (rev s)).
Definition trim (s : jsstring) : jsstring := trim_end (trim_start s).

(** Truthiness of a string: only [""] is falsy. *)
Definition truthy (s : jsstring) : bool :=
  match s with [] => false | _ => true end.

End JS.
Import JS.


(** ** Collaborators

    The WebContainer runtime ([@webcontainer/api]), [JSON] and the JSON-RPC
    schema ([@modelcontextprotocol/sdk]) are outside the repository.  They
    appear here by their interface only. *)

Inductive LifecycleStatus :=
  booting | mounting | installing | running | unmounting | teardowned.

Inductive Error :=
  | AlreadyStarted          (* new Error("WebContainerTransport already started!") *)
  | NotStarted              (* new Error("Transport not started") *)
  | WriterLocked            (* TypeError of getWriter() on a locked stream *)
  | SyntaxError             (* thrown by JSON.parse *)
  | SchemaError             (* thrown by JSONRPCMessageSchema.parse *)
  | StringifyError          (* TypeError of JSON.stringify (BigInt, cycle) *)
  | External (id : N).      (* any failure raised by the WebContainer runtime *)

(** [JSON.parse], [JSONRPCMessageSchema.parse] and [JSON.stringify];
    [None] stands for the exception the function throws. *)
Class Codec := {
  JSONValue : Type;
  JSONRPCMessage : Type;
  JSON_parse : jsstring → option JSONValue;
  JSONRPCMessageSchema_parse : JSONValue → option JSONRPCMessage;
  JSON_stringify : JSONRPCMessage → option jsstring
}.

(** [process.kill?.()]: the method may be missing, return, or throw. *)
Inductive KillOp := kill_absent | kill_returns | kill_throws (e : Error).

Record WebContainerProcess := {
  exit : Error + N;                       (* the awaited exit code *)
  kill : KillOp;
  input_write : jsstring → option Error;  (* writer.write(chunk) rejecting *)
  input_locked : bool                     (* input.locked *)
}.

Definition set_input_locked (b : bool) (p : WebContainerProcess) :=
  {| exit := exit p; kill := kill p; input_write := input_write p;
     input_locked := b |}.

(** The value [{ file: { contents } }] built for every mounted file. *)
Record FileNode := { contents : jsstring }.

Record WebContainer := {
  mount : gmap jsstring FileNode → option Error;
  spawn : jsstring → list jsstring → option (gmap jsstring jsstring) →
          Error + WebContainerProcess;
  teardown : option Error
}.

(** ** Options and private fields *)

Inductive WebContainerTransportOptions :=
  | FileBasedOptions (files : gmap jsstring jsstring)
                     (entrypoint : option jsstring)
  | SpawnBasedOptions (command : jsstring) (args : list jsstring)
                      (env : option (gmap jsstring jsstring)).

Record Transport := {
  _webContainer : option WebContainer;
  _process : option WebContainerProcess;
  _started : bool;
  _outputBuffer : jsstring;
  _options : WebContainerTransportOptions;
  _initialized : bool
}.

(** [new WebContainerTransport(options)]. *)
Definition constructor (options : WebContainerTransportOptions) : Transport :=
  {| _webContainer := None; _process := None; _started := false;
     _outputBuffer := []; _options := options; _initialized := false |}.

Definition set_webContainer (v : option WebContainer) (t : Transport) :=
  {| _webContainer := v; _process := _process t; _started := _started t;
     _outputBuffer := _outputBuffer t; _options := _options t;
     _initialized := _initialized t |}.
Definition set_process (v : option WebContainerProcess) (t : Transport) :=
  {| _webContainer := _webContainer t; _process := v; _started := _started t;
     _outputBuffer := _outputBuffer t; _options := _options t;
     _initialized := _initialized t |}.
Definition set_started (v : bool) (t : Transport) :=
  {| _webContainer := _webContainer t; _process := _process t; _started := v;
     _outputBuffer := _outputBuffer t; _options := _options t;
     _initialized := _initialized t |}.
Definition set_outputBuffer (v : jsstring) (t : Transport) :=
  {| _webContainer := _webContainer t; _process := _process t;
     _started := _started t; _outputBuffer := v; _options := _options t;
     _initialized := _initialized t |}.
Definition set_initialized (v : bool) (t : Transport) :=
  {| _webContainer := _webContainer t; _process := _process t;
     _started := _started t; _outputBuffer := _outputBuffer t;
     _options := _options t; _initialized := v |}.

(** ** Observable events

    The first four are the firings of the callback slots
    ([this._options.onStatusChange?.(s)], [this.onerror?.(e)],
    [this.onclose?.()], [this.onmessage?.(m)]): an event is logged where the
    source reaches the optional call, and the callbacks are observers that
    return normally.  The others are the calls made into the WebContainer
    runtime, the streams and the timer. *)
Inductive Event `{Codec} :=
  | onStatusChange (s : LifecycleStatus)
  | onerror (e : Error)
  | onclose
  | onmessage (m : JSONRPCMessage)
  | WebContainer_boot
  | wc_mount (tree : gmap jsstring FileNode)
  | wc_spawn (command : jsstring) (args : list jsstring)
             (opts : option (gmap jsstring jsstring))
  | await_exit
  | output_pipeTo
  | process_kill
  | setTimeout (ms : N)
  | wc_teardown
  | input_getWriter
  | writer_write (chunk : jsstring)
  | writer_releaseLock.

(** ** The method monad: private fields, exceptions, event log *)

Inductive Completion (A : Type) :=
  | Normal (a : A)
  | Throw (e : Error).
Arguments Normal {A} a.
Arguments Throw {A} e.

Section Monad.
Context `{Codec}.

Definition M (A : Type) : Type :=
  Transport → Completion A * Transport * list Event.

Definition ret {A} (a : A) : M A := λ t, (Normal a, t, []).
Definition throw {A} (e : Error) : M A := λ t, (Throw e, t, []).
Definition bind {A B} (m : M A) (k : A → M B) : M B :=
  λ t, match m t with
       | (Normal a, t', evs) =>
           let '(r, t'', evs') := k a t' in (r, t'', evs ++ evs')
       | (Throw e, t', evs) => (Throw e, t', evs)
       end.
(** [try { body } catch (error) { handler }] *)
Definition try_catch {A} (body : M A) (handler : Error → M A) : M A :=
  λ t, match body t with
       | (Normal a, t', evs) => (Normal a, t', evs)
       | (Throw e, t', evs) =>
           let '(r, t'', evs') := handler e t' in (r, t'', evs ++ evs')
       end.
Definition read {A} (field : Transport → A) : M A := λ t, (Normal (field t), t, []).
Definition assign (update : Transport → Transport) : M unit :=
  λ t, (Normal tt, update t, []).
Definition log (ev : Event) : M unit := λ t, (Normal tt, t, [ev]).
(** [await] of a collaborator promise that resolves or rejects. *)
Definition await {A} (r : Error + A) : M A :=
  match r with inl e => throw e | inr a => ret a end.
Definition fail_with (r : option Error) : M unit :=
  match r with Some e => throw e | None => ret tt end.
(** The value a collaborator returns, or the exception it throws. *)
Definition or_throw {A} (r : option A) (e : Error) : M A :=
  match r with Some a => ret a | None => throw e end.

End Monad.

Declare Scope method_scope.
Delimit Scope method_scope with method.
Notation "x <- m ;; k" := (bind m (λ x, k))
  (at level 100, m at next level, k at level 200, right associativity)
  : method_scope.
Notation "m ;; k" := (bind m (λ _, k))
  (at level 100, k at level 200, right associativity) : method_scope.

Section Methods.
Context `{Codec}.
Local Open Scope method_scope.

(** *** [start] *)

Definition package_json : jsstring := lit "package.json".

(** [this._options.files["package.json"]] as an [if] condition: the entry
    exists and its content is a truthy string. *)
Definition has_package_json (files : gmap jsstring jsstring) : bool :=
  match files !! package_json with
  | Some content => truthy content
  | None => false
  end.

(** [this._options.entrypoint || "index.js"] *)
Definition entrypoint_or_default (entrypoint : option jsstring) : jsstring :=
  match entrypoint with
  | Some e => if truthy e then e else lit "index.js"
  | None => lit "index.js"
  end.

(** The loop over [Object.entries(files)] that fills [webContainerFiles]. *)
Definition webContainerFiles (files : gmap jsstring jsstring)
  : gmap jsstring FileNode :=
  (λ content, {| contents := content |}) <$> files.

Definition spawn_in (wc : WebContainer) (command : jsstring)
    (args : list jsstring) (opts : option (gmap jsstring jsstring))
  : M WebContainerProcess :=
  log (wc_spawn command args opts);;
  await (spawn wc command args opts).

(** [boot] is what [await WebContainer.boot(this._options.bootOptions)]
    yields; the boot options are handed over untouched.  The promise of
    [pipeTo] is not awaited, so nothing it does can reach the [catch]. *)
Definition start (boot : Error + WebContainer) : M unit :=
  started <- read _started;;
  if started then throw AlreadyStarted
  else
    try_catch
      (assign (set_started true);;
       log (onStatusChange booting);;
       log WebContainer_boot;;
       wc <- await boot;;
       assign (set_webContainer (Some wc));;
       options <- read _options;;
       match options with
       | FileBasedOptions files entrypoint =>
           log (onStatusChange mounting);;
           log (wc_mount (webContainerFiles files));;
           fail_with (mount wc (webContainerFiles files));;
           (if has_package_json files then
              log (onStatusChange installing);;
              installProcess <- spawn_in wc (lit "npm") [lit "install"] None;;
              log await_exit;;
              _ <- await (exit installProcess);;
              ret tt
            else ret tt);;
           log (onStatusChange running);;
           p <- spawn_in wc (lit "node") [entrypoint_or_default entrypoint] None;;
           assign (set_process (Some p))
       | SpawnBasedOptions command args env =>
           log (onStatusChange running);;
           p <- spawn_in wc command args env;;
           assign (set_process (Some p))
       end;;
       log output_pipeTo;;
       assign (set_initialized true))
      (λ error,
         assign (set_started false);;
         log (onerror error);;
         throw error).

(** *** [send] *)

(** [getWriter()] throws on a locked stream and locks it otherwise; the lock
    is a field of the stream, so it outlives the call that took it. *)
Definition send (message : JSONRPCMessage) : M unit :=
  process <- read _process;;
  match process with
  | None => throw NotStarted
  | Some p =>
      try_catch
        ((if input_locked p then throw WriterLocked else ret tt);;
         assign (set_process (Some (set_input_locked true p)));;
         log input_getWriter;;
         json <- or_throw (JSON_stringify message) StringifyError;;
         let serialized := json ++ [LF] in
         log (writer_write serialized);;
         fail_with (input_write p serialized);;
         assign (set_process (Some (set_input_locked false p)));;
         log writer_releaseLock)
        (λ error,
           log (onerror error);;
           throw error)
  end.

(** *** [close] *)

Definition close : M unit :=
  started <- read _started;;
  (if started then log (onStatusChange unmounting) else ret tt);;
  process <- read _process;;
  match process with
  | Some p =>
      try_catch
        (match kill p with
         | kill_absent => ret tt
         | kill_returns => log process_kill
         | kill_throws e => log process_kill;; throw e
         end;;
         log (setTimeout 1000))
        (λ _, ret tt);;
      assign (set_process None)
  | None => ret tt
  end;;
  webContainer <- read _webContainer;;
  match webContainer with
  | Some wc =>
      try_catch
        (log (onStatusChange teardowned);;
         log wc_teardown;;
         fail_with (teardown wc))
        (λ _, ret tt);;
      assign (set_webContainer None)
  | None => ret tt
  end;;
  assign (set_started false);;
  assign (set_initialized false);;
  log onclose.

(** *** [_handleProcessOutput] *)

(** The body of the [for] loop for one line. *)
Definition handle_line (line : jsstring) : M unit :=
  if negb (truthy (trim line)) then ret tt   (* continue *)
  else
    try_catch
      (match JSON_parse line with
       | None => throw SyntaxError
       | Some parsed =>
           match JSONRPCMessageSchema_parse parsed with
           | None => throw SchemaError
           | Some message => log (onmessage message)
           end
       end)
      (λ _, ret tt).

Fixpoint for_of {A} (xs : list A) (body : A → M unit) : M unit :=
  match xs with
  | [] => ret tt
  | x :: rest => body x;; for_of rest body
  end.

Definition _handleProcessOutput (data : jsstring) : M unit :=
  let data := replace_csi data in
  let data := replace_cr_esc data in
  buffer <- read _outputBuffer;;
  let lines := split_lines (buffer ++ data) in
  (* [lines.pop() || ""]: the last segment leaves [lines] and is the buffer *)
  assign (set_outputBuffer (List.last lines []));;
  for_of (removelast lines) handle_line.

(** The [WritableStream] wired by [start] receives the chunks one by one. *)
Fixpoint feed (chunks : list jsstring) : M unit :=
  match chunks with
  | [] => ret tt
  | data :: rest => _handleProcessOutput data;; feed rest
  end.

End Methods.

(** ** Reading a run *)

Section Reading.
Context `{Codec}.

Definition completion_of {A} (r : Completion A * Transport * list Event) := r.1.1.
Definition state_of {A} (r : Completion A * Transport * list Event) := r.1.2.
Definition events_of {A} (r : Completion A * Transport * list Event) := r.2.

(** The statuses handed to the status callback, in firing order. *)
Definition statuses (evs : list Event) : list LifecycleStatus :=
  omap (λ ev, match ev with onStatusChange s => Some s | _ => None end) evs.
(** The errors handed to the error callback. *)
Definition errors (evs : list Event) : list Error :=
  omap (λ ev, match ev with onerror e => Some e | _ => None end) evs.
(** The messages handed to the message callback. *)
Definition messages (evs : list Event) : list JSONRPCMessage :=
  omap (λ ev, match ev with onmessage m => Some m | _ => None end) evs.
(** How many times the close callback fired. *)
Definition closes (evs : list Event) : nat :=
  length (List.filter (λ ev, match ev with onclose => true | _ => false end) evs).
(** The timer delays requested. *)
Definition delays (evs : list Event) : list N :=
  omap (λ ev, match ev with setTimeout ms => Some ms | _ => None end) evs.

End Reading.

(** ** Notions used by the statements *)

(** The two replacements applied to a chunk before it is buffered. *)
Definition clean (data : jsstring) : jsstring :=
  replace_cr_esc (replace_csi data).

(** The lines taken out of the buffer and the buffer left behind, chunk
    after chunk. *)
Fixpoint frames (buffer : jsstring) (chunks : list jsstring)
  : list jsstring * jsstring :=
  match chunks with
  | [] => ([], buffer)
  | data :: rest =>
      let segments := split_lines (buffer ++ clean data) in
      let '(lines, buffer') := frames (List.last segments []) rest in
      (removelast segments ++ lines, buffer')
  end.

Section Notions.
Context `{Codec}.

(** The Message Validator Adapter: [JSON.parse] followed by
    [JSONRPCMessageSchema.parse]. *)
Definition validate (line : jsstring) : option JSONRPCMessage :=
  JSON_parse line ≫= JSONRPCMessageSchema_parse.

(** What the loop of [_handleProcessOutput] hands to the message callback
    for one line: nothing for a line that is blank once trimmed, the
    validated message otherwise. *)
Definition deliver (line : jsstring) : option JSONRPCMessage :=
  if truthy (trim line) then validate line else None.

(** The first step of the start-up sequence that fails, read off the answers
    of the WebContainer runtime: boot, then for the files variant mount, the
    install command (its spawn, then its exit) when [start] runs it, and the
    spawn of the server process. *)
Definition install_failure (wc : WebContainer) : option Error :=
  match spawn wc (lit "npm") [lit "install"] None with
  | inl e => Some e
  | inr installProcess =>
      match exit installProcess with inl e => Some e | inr _ => None end
  end.

Definition spawn_failure (r : Error + WebContainerProcess) : option Error :=
  match r with inl e => Some e | inr _ => None end.

Definition startup_failure (boot : Error + WebContainer)
    (options : WebContainerTransportOptions) : option Error :=
  match boot with
  | inl e => Some e
  | inr wc =>
      match options with
      | FileBasedOptions files entrypoint =>
          match mount wc (webContainerFiles files) with
          | Some e => Some e
          | None =>
              match (if has_package_json files then install_failure wc
                     else None) with
              | Some e => Some e
              | None =>
                  spawn_failure
                    (spawn wc (lit "node")
                       [entrypoint_or_default entrypoint] None)
              end
          end
      | SpawnBasedOptions command args env =>
          spawn_failure (spawn wc command args env)
      end
  end.

(** The log of [close()], step by step. *)
Definition close_log (t : Transport) : list Event :=
  (if _started t then [onStatusChange unmounting] else [])
  ++ match _process t with
     | Some p =>
         match kill p with
         | kill_absent => [setTimeout 1000]
         | kill_returns => [process_kill; setTimeout 1000]
         | kill_throws _ => [process_kill]
         end
     | None => []
     end
  ++ match _webContainer t with
     | Some _ => [onStatusChange teardowned; wc_teardown]
     | None => []
     end
  ++ [onclose].

(** The invariant of the private fields between two method calls. *)
Definition invariant (t : Transport) : Prop :=
  (_initialized t = true → _started t = true)
  ∧ (_started t = false → _process t = None)
  ∧ (is_Some (_process t) → is_Some (_webContainer t)).

(** The instances a client can observe: a fresh one, and whatever the
    methods and the output stream make of it. *)
Inductive reachable (options : WebContainerTransportOptions)
  : Transport → Prop :=
  | reach_constructor : reachable options (constructor options)
  | reach_start boot t :
      reachable options t → reachable options (state_of (start boot t))
  | reach_send message t :
      reachable options t → reachable options (state_of (send message t))
  | reach_close t :
      reachable options t → reachable options (state_of (close t))
  | reach_output data t :
      reachable options t →
      reachable options (state_of (_handleProcessOutput data t)).

End Notions.

(** ** Concrete collaborators for the closed examples *)

Module Scenario.

Definition QUOTE : char := 34.
Definition quoted (s : string) : jsstring := [QUOTE] ++ lit s ++ [QUOTE].

(** The line [{"jsonrpc":"2.0","method":"ping"}]. *)
Definition ping : jsstring :=
  lit "{" ++ quoted "jsonrpc" ++ lit ":" ++ quoted "2.0" ++ lit ","
  ++ quoted "method" ++ lit ":" ++ quoted "ping" ++ lit "}".

(** A stand-in for [JSON]: a line is accepted when, trimmed, it is enclosed
    in braces, and the value is that text. *)
Definition braces (s : jsstring) : option jsstring :=
  match s with
  | 123 :: _ => if decide (List.last s 0 = 125) then Some s else None
  | _ => None
  end.

#[export] Instance object_codec : Codec := {|
  JSONValue := jsstring;
  JSONRPCMessage := jsstring;
  JSON_parse := λ line, braces (trim line);
  JSONRPCMessageSchema_parse := Some;
  JSON_stringify := Some
|}.

(** A process that exits with code 0, can be killed and accepts input. *)
Definition process : WebContainerProcess :=
  {| exit := inr 0; kill := kill_returns; input_write := λ _, None;
     input_locked := false |}.
(** A process whose [kill] throws. *)
Definition unkillable : WebContainerProcess :=
  {| exit := inr 0; kill := kill_throws (External 3);
     input_write := λ _, None; input_locked := false |}.
(** A process whose input stream rejects every write. *)
Definition deaf : WebContainerProcess :=
  {| exit := inr 0; kill := kill_returns;
     input_write := λ _, Some (External 4); input_locked := false |}.

Definition container_of (p : WebContainerProcess) : WebContainer :=
  {| mount := λ _, None; spawn := λ _ _ _, inr p; teardown := None |}.
Definition container : WebContainer := container_of process.
(** A container whose [mount] rejects. *)
Definition container_mount_fails : WebContainer :=
  {| mount := λ _, Some (External 2); spawn := λ _ _ _, inr process;
     teardown := None |}.

(** [{ "package.json": "" }] *)
Definition empty_manifest : gmap jsstring jsstring := {[ package_json := [] ]}.
(** [{ "index.js": "main()", "package.json": "{}" }] *)
Definition project : gmap jsstring jsstring :=
  <[ lit "index.js" := lit "main()" ]> {[ package_json := lit "{}" ]}.

Definition files_options := FileBasedOptions project None.
Definition spawn_options := SpawnBasedOptions (lit "npx") [lit "server"] None.

(** A files-variant instance with a manifest, started in a container whose
    server process is [p]. *)
Definition live_with (p : WebContainerProcess) : Transport :=
  state_of (start (inr (container_of p)) (constructor files_options)).
Definition live : Transport := live_with process.

(** An instance whose only file is an empty "package.json". *)
Definition fresh_empty_manifest : Transport :=
  constructor (FileBasedOptions empty_manifest None).

End Scenario.

(** ** Further notions: sequences of calls, the empty method, the example *)

(** [segments.join("\n")], the inverse of splitting on line feeds. *)
Fixpoint join_lf (segments : list jsstring) : jsstring :=
  match segments with
  | [] => []
  | [segment] => segment
  | segment :: rest => segment ++ LF :: join_lf rest
  end.

(** The position of a status in the union type of [onStatusChange]. *)
Definition status_rank (s : LifecycleStatus) : nat :=
  match s with
  | booting => 0 | mounting => 1 | installing => 2
  | running => 3 | unmounting => 4 | teardowned => 5
  end.

Section Callers.
Context `{Codec}.
Local Open Scope method_scope.

(** [setProtocolVersion?(version: string): void {}] *)
Definition setProtocolVersion (version : jsstring) : M unit := ret tt.

(** [await transport.send(m1); await transport.send(m2); ...] *)
Fixpoint send_all (messages : list JSONRPCMessage) : M unit :=
  match messages with
  | [] => ret tt
  | message :: rest => send message;; send_all rest
  end.

(** The chunks handed to [writer.write]. *)
Definition written (evs : list Event) : list jsstring :=
  omap (λ ev, match ev with writer_write chunk => Some chunk | _ => None end) evs.

(** The commands handed to [spawn], with their arguments and options. *)
Definition spawned (evs : list Event)
  : list (jsstring * list jsstring * option (gmap jsstring jsstring)) :=
  omap (λ ev, match ev with
              | wc_spawn command args opts => Some (command, args, opts)
              | _ => None
              end) evs.

(** *** [example.ts]

    The options of [runExample]: two files, no entrypoint.  [serverCode] is
    the template string of the file and [manifest] the text that
    [JSON.stringify(..., null, 2)] returns for the package description. *)
Definition example_options (serverCode manifest : jsstring)
  : WebContainerTransportOptions :=
  FileBasedOptions
    (<[package_json := manifest]> (<[lit "index.js" := serverCode]> ∅)) None.

(** The body of [runExample] once the transport is constructed: [list_tools]
    and [call_tool] are the two request objects.  The two callbacks given to
    the transport only write to the console.  The last statement only sets
    the timer: its callback, [transport.close()], runs after [runExample] has
    returned. *)
Definition runExample (boot : Error + WebContainer)
    (list_tools call_tool : JSONRPCMessage) : M unit :=
  start boot;;
  log (setTimeout 2000);;
  send list_tools;;
  send call_tool;;
  log (setTimeout 3000).

End Callers.

(** A process whose input stream is already locked by another writer. *)
Module Fixtures.

Definition busy : WebContainerProcess :=
  {| exit := inr 0; kill := kill_returns; input_write := λ _, None;
     input_locked := true |}.

(** A container whose spawn of the server process rejects. *)
Definition container_spawn_fails : WebContainer :=
  {| mount := λ _, None; spawn := λ _ _ _, inl (External 5);
     teardown := None |}.

(** A container whose teardown throws and whose process cannot be killed. *)
Definition stubborn_container : WebContainer :=
  {| mount := λ _, None; spawn := λ _ _ _, inr Scenario.unkillable;
     teardown := Some (External 6) |}.

End Fixtures.

(** One case analysis on the scrutinee of the first [match] of the goal. *)
Ltac branch :=
  match goal with
  | |- context [match ?x with _ => _ end] =>
      lazymatch x with
      | context [match _ with _ => _ end] => fail
      | _ => destruct x eqn:?
      end
  end.

(** Membership of an event in an explicit log. *)
Ltac fired :=
  solve [repeat first [apply list_elem_of_here | apply list_elem_of_further]].
Ltac not_fired :=
  let Hx := fresh in
  rewrite !elem_of_cons, elem_of_nil; intros Hx;
  repeat (destruct Hx as [Hx|Hx];
          [try discriminate; try (injection Hx; discriminate)|]);
  exact (False_ind _ Hx).

Ltac unfold_methods :=
  unfold start, send, close, _handleProcessOutput, handle_line, spawn_in,
    await, fail_with, or_throw, try_catch, bind, read, assign, log, throw, ret,
    completion_of, state_of, events_of in *.

(** ** The lifecycle: [start] and [close] *)

Section Lifecycle.
Context `{Codec}.

Lemma start_guard boot t :
  _started t = true →
  start boot t = (Throw AlreadyStarted, t, []).
Proof.
  intros Hs. unfold_methods. rewrite Hs. reflexivity.
Qed.

(** C8.  [start()] on an instance whose started flag is set throws the
    "already started" error at once: the private fields are unchanged and
    nothing is fired or called, in particular no status callback. *)
Theorem start_twice_rejected boot t :
  _started t = true →
  completion_of (start boot t) = Throw AlreadyStarted
  ∧ state_of (start boot t) = t
  ∧ events_of (start boot t) = [].
Proof.
  intros Hs. rewrite (start_guard boot t Hs). repeat split.
Qed.

Lemma start_statuses_by_guard boot t :
  completion_of (start boot t) = Normal tt →
  statuses (events_of (start boot t)) =
    match _options t with
    | FileBasedOptions files _ =>
        if has_package_json files
        then [booting; mounting; installing; running]
        else [booting; mounting; running]
    | SpawnBasedOptions _ _ _ => [booting; running]
    end.
Proof.
  unfold_methods.
  repeat (cbn; branch); cbn; try discriminate; reflexivity.
Qed.

(** C3, amended.  A [start()] that succeeds fires the statuses
    booting, mounting, installing, running when the files variant maps
    "package.json" to a non-empty content; booting, mounting, running for
    any other files variant; booting, running for the spawn variant. *)
Theorem start_status_sequence boot t :
  completion_of (start boot t) = Normal tt →
  statuses (events_of (start boot t)) =
    match _options t with
    | FileBasedOptions files _ =>
        match files !! package_json with
        | Some (_ :: _) => [booting; mounting; installing; running]
        | _ => [booting; mounting; running]
        end
    | SpawnBasedOptions _ _ _ => [booting; running]
    end.
Proof.
  intros Hok. rewrite (start_statuses_by_guard _ _ Hok).
  destruct (_options t) as [files entrypoint|]; [|reflexivity].
  unfold has_package_json, truthy.
  by destruct (files !! package_json) as [[|]|].
Qed.

Lemma has_package_json_spec files :
  has_package_json files = true ↔
  ∃ content, files !! package_json = Some content ∧ content ≠ [].
Proof.
  unfold has_package_json, truthy. split.
  - destruct (files !! package_json) as [[|c content]|]; try discriminate.
    intros _. by exists (c :: content).
  - intros (content & -> & Hne). by destruct content.
Qed.

(** C4, amended.  In a [start()] of the files variant that gets past boot
    and mount, the install step (the "installing" status and the spawn of
    [npm install], whose exit is then awaited) is run if and only if the
    file mapping has the key "package.json" with a non-empty content. *)
Theorem install_iff_nonempty_manifest wc files entrypoint t :
  _started t = false →
  _options t = FileBasedOptions files entrypoint →
  mount wc (webContainerFiles files) = None →
  (onStatusChange installing ∈ events_of (start (inr wc) t)
   ↔ ∃ content, files !! package_json = Some content ∧ content ≠ [])
  ∧ (wc_spawn (lit "npm") [lit "install"] None ∈ events_of (start (inr wc) t)
     ↔ ∃ content, files !! package_json = Some content ∧ content ≠ [])
  ∧ (await_exit ∈ events_of (start (inr wc) t)
     ↔ (∃ content, files !! package_json = Some content ∧ content ≠ [])
       ∧ ∃ p, spawn wc (lit "npm") [lit "install"] None = inr p).
Proof.
  intros Hs Ho Hm. rewrite <- has_package_json_spec.
  unfold_methods. rewrite Hs. cbn. rewrite Ho. cbn. rewrite Hm. cbn.
  destruct (has_package_json files); cbn; repeat (branch; cbn);
    (split; [|split]); split;
    solve [ intros _; try split; eauto; fired
          | not_fired
          | intros [? [? ?]]; discriminate
          | discriminate ].
Qed.

(** C7.  When a step of [start()] fails (boot, mount, install or spawn),
    the call rejects with the error of that step, that error is the one
    handed to the error callback, fired once and last, and the started flag
    is false again when the call settles. *)
Theorem start_failure_propagates boot t e :
  _started t = false →
  startup_failure boot (_options t) = Some e →
  completion_of (start boot t) = Throw e
  ∧ errors (events_of (start boot t)) = [e]
  ∧ last (events_of (start boot t)) = Some (onerror e)
  ∧ _started (state_of (start boot t)) = false.
Proof.
  intros Hs. unfold_methods. unfold startup_failure, install_failure, spawn_failure.
  rewrite Hs. cbn.
  destruct boot as [e0|wc]; cbn; [intros [= ->]; done|].
  destruct (_options t) as [files entrypoint|command args env]; cbn;
    repeat (branch; cbn); intros [= <-]; done.
Qed.

(** When no step fails the call fulfils, started and initialized. *)
Lemma start_without_failure boot t :
  _started t = false →
  startup_failure boot (_options t) = None →
  completion_of (start boot t) = Normal tt
  ∧ errors (events_of (start boot t)) = []
  ∧ _started (state_of (start boot t)) = true
  ∧ _initialized (state_of (start boot t)) = true.
Proof.
  intros Hs. unfold_methods. unfold startup_failure, install_failure, spawn_failure.
  rewrite Hs. cbn.
  destruct boot as [e0|wc]; cbn; [done|].
  destruct (_options t) as [files entrypoint|command args env]; cbn;
    repeat (branch; cbn); intros [=]; done.
Qed.

Lemma close_run t :
  close t =
    (Normal tt,
     {| _webContainer := None; _process := None; _started := false;
        _outputBuffer := _outputBuffer t; _options := _options t;
        _initialized := false |},
     close_log t).
Proof.
  unfold_methods. unfold close_log. destruct t as [wc p started ? ? ?].
  repeat (cbn; branch); reflexivity.
Qed.

Lemma start_boot_rejected e options :
  start (inl e) (constructor options) =
    (Throw e, constructor options,
     [onStatusChange booting; WebContainer_boot; onerror e]).
Proof. reflexivity. Qed.

Lemma start_after_boot wc options :
  _webContainer (state_of (start (inr wc) (constructor options))) = Some wc
  ∧ _started (state_of (start (inr wc) (constructor options)))
    = match completion_of (start (inr wc) (constructor options)) with
      | Normal _ => true
      | Throw _ => false
      end.
Proof.
  unfold_methods. cbn.
  destruct options; repeat (cbn; branch); done.
Qed.


Lemma start_leaves boot t :
  _started t = false →
  _webContainer (state_of (start boot t))
    = match boot with inl _ => _webContainer t | inr wc => Some wc end
  ∧ _started (state_of (start boot t))
    = match completion_of (start boot t) with
      | Normal _ => true
      | Throw _ => false
      end
  ∧ match boot with
    | inl e => completion_of (start boot t) = Throw e
    | inr _ => True
    end.
Proof.
  unfold_methods. destruct t as [wc0 p0 started buffer options initialized].
  cbn. intros ->. repeat (cbn; branch); done.
Qed.

(** C5, amended.  [close()] always fulfils and fires the close callback
    exactly once, whatever kill and teardown do, also before [start()] and
    after a failed [start()].  It fires "unmounting" exactly when the
    started flag is set and "teardowned" exactly when an environment handle
    is held.  Hence no status on a fresh instance; and after a [start()]
    that failed, on any instance that was not started: no status when boot
    failed and no environment was left from an earlier start, "teardowned"
    alone when boot had succeeded or such an environment was still held. *)
Theorem close_always_completes t t0 options boot :
  _started t0 = false →
  (completion_of (close t) = Normal tt
   ∧ closes (events_of (close t)) = 1%nat
   ∧ statuses (events_of (close t)) =
       (if _started t then [unmounting] else [])
       ++ match _webContainer t with Some _ => [teardowned] | None => [] end)
  ∧ statuses (events_of (close (constructor options))) = []
  ∧ statuses (events_of (close (state_of (start boot t0))))
    = match completion_of (start boot t0) with
      | Normal _ => [unmounting; teardowned]
      | Throw _ =>
          match boot, _webContainer t0 with
          | inl _, None => []
          | _, _ => [teardowned]
          end
      end.
Proof.
  intros Hs0. split; [|split].
  - rewrite close_run. unfold completion_of, events_of, close_log. cbn.
    split; [done|].
    destruct (_started t), (_process t) as [p|], (_webContainer t);
      try destruct (kill p); done.
  - by rewrite close_run.
  - destruct (start_leaves boot t0 Hs0) as (Hwc & Hst & Hboot).
    set (t1 := state_of (start boot t0)) in *.
    set (c := completion_of (start boot t0)) in *.
    clearbody t1 c.
    rewrite close_run. unfold events_of, close_log. cbn. rewrite Hwc, Hst.
    destruct boot as [e|wc].
    + rewrite Hboot.
      destruct (_webContainer t0), (_process t1) as [p|];
        try destruct (kill p); done.
    + destruct c, (_webContainer t0), (_process t1) as [p|];
        try destruct (kill p); done.
Qed.

(** C9, amended.  In a [close()] that holds a process handle whose kill
    operation is absent or returns, the 1000 ms delay is requested once,
    after the kill call and before teardown is attempted; when the kill
    operation throws, the delay is skipped and teardown follows directly. *)
Theorem close_grace_delay t p :
  _process t = Some p →
  events_of (close t) =
    (if _started t then [onStatusChange unmounting] else [])
    ++ match kill p with
       | kill_absent => [setTimeout 1000]
       | kill_returns => [process_kill; setTimeout 1000]
       | kill_throws _ => [process_kill]
       end
    ++ match _webContainer t with
       | Some _ => [onStatusChange teardowned; wc_teardown]
       | None => []
       end
    ++ [onclose].
Proof.
  intros Hp. rewrite close_run. unfold events_of, close_log. cbn.
  by rewrite Hp.
Qed.

(** *** [send] and the writer lock *)

Lemma send_not_started message t :
  _process t = None →
  send message t = (Throw NotStarted, t, []).
Proof. intros Hp. unfold_methods. by rewrite Hp. Qed.

Lemma send_accepted message t p json :
  _process t = Some p →
  input_locked p = false →
  JSON_stringify message = Some json →
  input_write p (json ++ [LF]) = None →
  send message t =
    (Normal tt, set_process (Some (set_input_locked false p)) t,
     [input_getWriter; writer_write (json ++ [LF]); writer_releaseLock]).
Proof.
  intros Hp Hl Hj Hw. unfold_methods. rewrite Hp. cbn. rewrite Hl. cbn.
  rewrite Hj. cbn. rewrite Hw. reflexivity.
Qed.

(** A message that [JSON.stringify] refuses is a second way to the same
    state: the writer is taken, the exception goes to the [catch], and the
    lock stays. *)
Lemma send_not_serialisable message t p :
  _process t = Some p →
  input_locked p = false →
  JSON_stringify message = None →
  send message t =
    (Throw StringifyError, set_process (Some (set_input_locked true p)) t,
     [input_getWriter; onerror StringifyError]).
Proof.
  intros Hp Hl Hj. unfold_methods. rewrite Hp. cbn. rewrite Hl. cbn.
  by rewrite Hj.
Qed.

(** Two sends in a row both fulfil when the process accepts the input. *)
Lemma send_twice_accepted m1 m2 t p :
  _process t = Some p →
  input_locked p = false →
  is_Some (JSON_stringify m1) → is_Some (JSON_stringify m2) →
  (∀ chunk, input_write p chunk = None) →
  completion_of (send m1 t) = Normal tt
  ∧ completion_of (send m2 (state_of (send m1 t))) = Normal tt.
Proof.
  intros Hp Hl [j1 Hj1] [j2 Hj2] Hw.
  rewrite (send_accepted m1 t p j1 Hp Hl Hj1 (Hw _)). split; [done|].
  unfold state_of; cbn [fst snd].
  by rewrite (send_accepted m2 (set_process (Some (set_input_locked false p)) t)
                (set_input_locked false p) j2 eq_refl eq_refl Hj2 (Hw _)).
Qed.

(** C2.  When the write of a [send()] is rejected, the error callback fires
    with the error and the call rejects with it, but the writer acquired by
    the call is never released: the input stream stays locked, and the next
    [send()] is rejected by [getWriter()] whatever the process would accept. *)
Theorem send_write_failure_keeps_lock m1 m2 t p json e :
  _process t = Some p →
  input_locked p = false →
  JSON_stringify m1 = Some json →
  input_write p (json ++ [LF]) = Some e →
  send m1 t =
    (Throw e, set_process (Some (set_input_locked true p)) t,
     [input_getWriter; writer_write (json ++ [LF]); onerror e])
  ∧ input_locked <$> _process (state_of (send m1 t)) = Some true
  ∧ send m2 (state_of (send m1 t)) =
      (Throw WriterLocked, state_of (send m1 t), [onerror WriterLocked]).
Proof.
  intros Hp Hl Hj Hw.
  assert (send m1 t =
    (Throw e, set_process (Some (set_input_locked true p)) t,
     [input_getWriter; writer_write (json ++ [LF]); onerror e]))
    as Hrun.
  { unfold_methods. rewrite Hp. cbn. rewrite Hl. cbn. rewrite Hj. cbn.
    by rewrite Hw. }
  rewrite Hrun. split; [done|]. split; [done|]. reflexivity.
Qed.

(** *** The invariant of the private fields *)

Lemma invariant_constructor options : invariant (constructor options).
Proof. repeat split; cbn; try done; by intros []. Qed.

Lemma start_preserves boot t :
  invariant t → invariant (state_of (start boot t)).
Proof.
  intros (Hi & Hp & Hw). destruct (_started t) eqn:Hs.
  { rewrite start_guard by done. repeat split; cbn; auto. congruence. }
  specialize (Hp eq_refl). destruct (_initialized t) eqn:Hini; [by discriminate Hi|].
  unfold invariant. unfold_methods. rewrite Hs.
  destruct t as [wc0 p0 started buffer options initialized]; cbn in *; subst.
  destruct boot as [e|wc]; cbn; [by repeat split; cbn; try done; intros []|].
  destruct options; repeat (cbn; branch); cbn;
    repeat split; try done; by intros [].
Qed.

Lemma send_preserves message t :
  invariant t → invariant (state_of (send message t)).
Proof.
  intros (Hi & Hp & Hw). unfold invariant. unfold_methods.
  destruct t as [wc0 p0 started buffer options initialized]; cbn in *.
  destruct p0 as [p|]; cbn; [|done].
  assert (started = true) as ->.
  { destruct started; [done|]. by specialize (Hp eq_refl). }
  repeat (cbn; branch); cbn; repeat split; auto; done.
Qed.

Lemma close_preserves t : invariant (state_of (close t)).
Proof. rewrite close_run. repeat split; cbn; try done; by intros []. Qed.

(** C10.  [start], [send] and [close] preserve the invariant: initialized
    implies started, a cleared started flag implies that no process handle
    is held, and a process handle is held only together with an environment
    handle, that is, after boot succeeded. *)
Theorem operations_preserve_invariant boot message t :
  invariant t →
  invariant (state_of (start boot t))
  ∧ invariant (state_of (send message t))
  ∧ invariant (state_of (close t)).
Proof.
  intros Hinv. split; [|split].
  - by apply start_preserves.
  - by apply send_preserves.
  - apply close_preserves.
Qed.

End Lifecycle.

(** ** Splitting and cleaning, on their own *)

Section Framing.
Implicit Types (s x y buffer : list N) (c : N).

Example replace_csi_colours :
  replace_csi ([ESC] ++ lit "[1;31mred" ++ [ESC] ++ lit "[0m" ++ [ESC] ++ lit "[3")
  = lit "red" ++ [ESC] ++ lit "[3".
Proof. reflexivity. Qed.

Example split_lines_crlf :
  split_lines (lit "ab" ++ [CR; LF] ++ lit "c" ++ [LF]) = [lit "ab"; lit "c"; []].
Proof. reflexivity. Qed.

Example split_lines_empty : split_lines [] = [[]].
Proof. reflexivity. Qed.

Example trim_both_ends : trim (lit "  a b " ++ [LF]) = lit "a b".
Proof. reflexivity. Qed.

Lemma last_default_app {A} (l l' : list A) d :
  l' ≠ [] → List.last (l ++ l') d = List.last l' d.
Proof.
  intros Hne. induction l as [|a l IH]; [done|].
  cbn [app List.last]. rewrite IH. destruct l, l'; done.
Qed.

Lemma split_lines_lf s : split_lines (LF :: s) = [] :: split_lines s.
Proof. reflexivity. Qed.

Lemma split_lines_plain c s :
  c ≠ LF → c ≠ CR →
  split_lines (c :: s) =
    match split_lines s with
    | seg :: segs => (c :: seg) :: segs
    | [] => [[c]]
    end.
Proof.
  intros Hlf Hcr. cbn [split_lines].
  destruct (N.eqb_spec c LF); [done|]. by destruct (N.eqb_spec c CR).
Qed.

Lemma split_lines_nonempty s : split_lines s ≠ [].
Proof.
  destruct s as [|c s]; [done|]. cbn [split_lines].
  destruct (c =? LF); [done|].
  destruct (c =? CR); [destruct s as [|d s']; [|destruct (d =? LF); [done|]]|];
    by destruct (split_lines _).
Qed.

(** Without carriage returns and line feeds there is a single segment. *)
Lemma split_lines_one_segment s :
  CR ∉ s → LF ∉ s → split_lines s = [s].
Proof.
  induction s as [|c s IH]; [done|]. intros Hcr Hlf.
  apply not_elem_of_cons in Hcr as [? ?]. apply not_elem_of_cons in Hlf as [? ?].
  rewrite split_lines_plain by done. by rewrite IH.
Qed.

(** The text after the last separator is the open line: splitting more
    text only extends that last segment. *)
Lemma split_lines_app x y :
  CR ∉ x →
  split_lines (x ++ y) =
    removelast (split_lines x) ++ split_lines (List.last (split_lines x) [] ++ y).
Proof.
  induction x as [|c x IH]; [done|]. intros Hcr.
  apply not_elem_of_cons in Hcr as [Hc Hx]. specialize (IH Hx).
  pose proof (split_lines_nonempty x) as Hne.
  destruct (decide (c = LF)) as [->|Hlf].
  - rewrite <- app_comm_cons, !split_lines_lf, IH.
    destruct (split_lines x) as [|seg segs]; done.
  - rewrite <- app_comm_cons.
    rewrite (split_lines_plain c (x ++ y)), (split_lines_plain c x), IH by done.
    destruct (split_lines x) as [|seg [|seg' segs]]; [done| |done].
    cbn [removelast List.last app].
    by rewrite (split_lines_plain c (seg ++ y)) by done.
Qed.

Lemma split_lines_segments s seg c :
  CR ∉ s → seg ∈ split_lines s → c ∈ seg → c ∈ s ∧ c ≠ LF.
Proof.
  revert seg. induction s as [|d s IH]; intros seg Hcr Hseg Hc.
  { apply list_elem_of_singleton in Hseg as ->. by apply elem_of_nil in Hc. }
  apply not_elem_of_cons in Hcr as [Hd Hs].
  destruct (decide (d = LF)) as [->|Hlf].
  - rewrite split_lines_lf in Hseg. apply elem_of_cons in Hseg as [->|Hseg].
    + by apply elem_of_nil in Hc.
    + destruct (IH seg Hs Hseg Hc). split; [by right|done].
  - rewrite split_lines_plain in Hseg by done.
    pose proof (split_lines_nonempty s) as Hne.
    destruct (split_lines s) as [|seg0 segs]; [done|].
    apply elem_of_cons in Hseg as [->|Hseg].
    + apply elem_of_cons in Hc as [->|Hc]; [split; [by left|done]|].
      destruct (IH seg0 Hs (list_elem_of_here _ _) Hc). split; [by right|done].
    + destruct (IH seg Hs (list_elem_of_further _ _ _ Hseg) Hc).
      split; [by right|done].
Qed.

Lemma last_split_lines s :
  CR ∉ s →
  (CR ∉ List.last (split_lines s) []) ∧ (LF ∉ List.last (split_lines s) []).
Proof.
  intros Hcr.
  assert (List.last (split_lines s) [] ∈ split_lines s) as Hin.
  { pose proof (split_lines_nonempty s) as Hne.
    destruct (exists_last Hne) as (segs & seg & ->).
    rewrite last_last. apply elem_of_app. right. apply list_elem_of_here. }
  split; intros Hc; destruct (split_lines_segments _ _ _ Hcr Hin Hc); done.
Qed.

Lemma replace_cr_esc_no_cr s : CR ∉ replace_cr_esc s.
Proof.
  unfold replace_cr_esc. intros Hin%list_elem_of_In%filter_In.
  by destruct Hin as [_ Hin].
Qed.

Lemma replace_csi_from_no_esc s : ESC ∉ s → replace_csi_from 0 s = s.
Proof.
  induction s as [|c s IH]; [done|]. intros Hesc.
  apply not_elem_of_cons in Hesc as [Hc Hs].
  cbn [replace_csi_from].
  assert (csi_match (c :: s) = None) as ->.
  { unfold csi_match. destruct s as [|b s']; [done|].
    by destruct (N.eqb_spec c ESC). }
  by rewrite IH.
Qed.

(** On text without escape characters, cleaning only filters code units,
    so it commutes with cutting the text into chunks. *)
Lemma clean_concat chunks :
  ESC ∉ concat chunks →
  concat (clean <$> chunks) = replace_cr_esc (concat chunks).
Proof.
  induction chunks as [|data rest IH]; [done|]. cbn. intros Hesc.
  apply not_elem_of_app in Hesc as [Hdata Hrest].
  rewrite IH by done. unfold clean, replace_csi.
  rewrite replace_csi_from_no_esc by done.
  unfold replace_cr_esc. by rewrite List.filter_app.
Qed.

(** Chunk after chunk, the decoder takes out what one split of the whole
    cleaned text takes out. *)
Lemma frames_concat buffer chunks :
  CR ∉ buffer → LF ∉ buffer →
  frames buffer chunks =
    (removelast (split_lines (buffer ++ concat (clean <$> chunks))),
     List.last (split_lines (buffer ++ concat (clean <$> chunks))) []).
Proof.
  revert buffer. induction chunks as [|data rest IH]; intros buffer Hcr Hlf.
  { cbn. rewrite app_nil_r. by rewrite split_lines_one_segment. }
  cbn [frames fmap list_fmap concat].
  assert (CR ∉ buffer ++ clean data) as Hcr'.
  { apply not_elem_of_app. split; [done|]. apply replace_cr_esc_no_cr. }
  destruct (last_split_lines _ Hcr') as [Hcr1 Hlf1].
  rewrite (IH _ Hcr1 Hlf1).
  rewrite (app_assoc buffer), (split_lines_app (buffer ++ clean data)) by done.
  pose proof (split_lines_nonempty
    (List.last (split_lines (buffer ++ clean data)) []
     ++ concat (clean <$> rest))) as Hne.
  by rewrite removelast_app, last_default_app by done.
Qed.

End Framing.

(** ** The frame decoder: [_handleProcessOutput] *)

Section Decoder.
Context `{Codec}.

Lemma handle_line_run line t :
  handle_line line t =
    (Normal tt, t,
     match deliver line with Some m => [onmessage m] | None => [] end).
Proof.
  unfold_methods. unfold deliver, validate.
  destruct (truthy (trim line)); cbn; [|done].
  destruct (JSON_parse line) as [parsed|]; cbn; [|done].
  by destruct (JSONRPCMessageSchema_parse parsed).
Qed.

Lemma for_of_handle_line lines t :
  for_of lines handle_line t = (Normal tt, t, onmessage <$> omap deliver lines).
Proof.
  induction lines as [|line lines IH]; [done|].
  cbn [for_of]. unfold bind. rewrite handle_line_run, IH. cbn.
  by destruct (deliver line).
Qed.

Lemma _handleProcessOutput_run data t :
  _handleProcessOutput data t =
    (Normal tt,
     set_outputBuffer (List.last (split_lines (_outputBuffer t ++ clean data)) []) t,
     onmessage <$>
       omap deliver (removelast (split_lines (_outputBuffer t ++ clean data)))).
Proof.
  unfold _handleProcessOutput, bind, read, assign.
  by rewrite for_of_handle_line.
Qed.

Lemma feed_run chunks t :
  feed chunks t =
    (Normal tt,
     set_outputBuffer (frames (_outputBuffer t) chunks).2 t,
     onmessage <$> omap deliver (frames (_outputBuffer t) chunks).1).
Proof.
  revert t. induction chunks as [|data rest IH]; intros t.
  { by destruct t. }
  cbn [feed frames]. unfold bind.
  rewrite _handleProcessOutput_run, IH. cbn.
  destruct (frames _ rest) as [lines buffer']. cbn.
  by rewrite omap_app, fmap_app.
Qed.


Lemma deliver_not_blank line :
  truthy (trim line) = true → deliver line = validate line.
Proof. intros Ht. unfold deliver. by rewrite Ht. Qed.

(** Where the stream has no escape character, the messages delivered and
    the buffer left behind do not depend on how the stream is cut into
    chunks. *)
Lemma chunking_invariant_without_escapes chunks1 chunks2 t :
  CR ∉ _outputBuffer t → LF ∉ _outputBuffer t →
  ESC ∉ concat chunks1 →
  concat chunks1 = concat chunks2 →
  feed chunks1 t = feed chunks2 t.
Proof.
  intros Hcr Hlf Hesc Heq.
  rewrite !feed_run, !frames_concat by done.
  rewrite !clean_concat by congruence. by rewrite Heq.
Qed.

(** C1.  An escape sequence cut by a chunk boundary is not removed: its
    first chunk loses only the escape character, and the rest of the
    sequence stays in the line.  The same stream in one chunk yields the
    line without the sequence, so the two chunkings hand different lines to
    the validator. *)
Theorem escape_sequence_split_across_chunks options :
  events_of (feed [ESC :: lit "[3"; lit "1m" ++ Scenario.ping ++ [LF]]
               (constructor options))
  = onmessage <$> omap validate [lit "[31m" ++ Scenario.ping]
  ∧ events_of (feed [(ESC :: lit "[3") ++ lit "1m" ++ Scenario.ping ++ [LF]]
                 (constructor options))
    = onmessage <$> omap validate [Scenario.ping].
Proof.
  rewrite !feed_run. unfold events_of. cbn [snd _outputBuffer constructor].
  split.
  - replace (frames [] [ESC :: lit "[3"; lit "1m" ++ Scenario.ping ++ [LF]])
      with ([lit "[31m" ++ Scenario.ping], @nil N) by (by vm_compute).
    cbn [fst omap list_omap]. by rewrite deliver_not_blank by (by vm_compute).
  - replace (frames [] [(ESC :: lit "[3") ++ lit "1m" ++ Scenario.ping ++ [LF]])
      with ([Scenario.ping], @nil N) by (by vm_compute).
    cbn [fst omap list_omap]. by rewrite deliver_not_blank by (by vm_compute).
Qed.

End Decoder.

(** ** Every observable instance *)

Section Reachable.
Context `{Codec}.

Lemma start_keeps_buffer boot t :
  _outputBuffer (state_of (start boot t)) = _outputBuffer t.
Proof.
  unfold_methods. destruct t as [wc0 p0 started buffer options initialized].
  repeat (cbn; branch); reflexivity.
Qed.

Lemma send_keeps_buffer message t :
  _outputBuffer (state_of (send message t)) = _outputBuffer t.
Proof.
  unfold_methods. destruct t as [wc0 p0 started buffer options initialized].
  repeat (cbn; branch); reflexivity.
Qed.

Lemma output_preserves data t :
  invariant t → invariant (state_of (_handleProcessOutput data t)).
Proof. rewrite _handleProcessOutput_run. by destruct t. Qed.

Lemma reachable_invariant options t : reachable options t → invariant t.
Proof.
  induction 1 as [|boot t _ IH|message t _ IH|t _ _|data t _ IH].
  - apply invariant_constructor.
  - by apply start_preserves.
  - by apply send_preserves.
  - apply close_preserves.
  - by apply output_preserves.
Qed.

(** The buffer holds an open line: no separator, no carriage return. *)
Lemma reachable_buffer options t :
  reachable options t → (CR ∉ _outputBuffer t) ∧ (LF ∉ _outputBuffer t).
Proof.
  induction 1 as [|boot t _ IH|message t _ IH|t _ IH|data t _ IH].
  - split; apply not_elem_of_nil.
  - by rewrite start_keeps_buffer.
  - by rewrite send_keeps_buffer.
  - by rewrite close_run.
  - rewrite _handleProcessOutput_run. unfold state_of. cbn.
    apply last_split_lines, not_elem_of_app. split; [apply IH|].
    apply replace_cr_esc_no_cr.
Qed.

(** X7.  On every observable instance, text without escape characters is
    decoded the same way however it is cut into chunks: same messages, same
    buffer left behind. *)
Lemma reachable_chunking_invariant options t chunks1 chunks2 :
  reachable options t →
  ESC ∉ concat chunks1 →
  concat chunks1 = concat chunks2 →
  feed chunks1 t = feed chunks2 t.
Proof.
  intros [Hcr Hlf]%reachable_buffer Hesc Heq.
  by apply chunking_invariant_without_escapes.
Qed.

End Reachable.

(** ** Closed runs *)

Module Runs.
Import Scenario.

(** C8 on a started instance. *)
Lemma start_twice_rejected_witness :
  _started live = true
  ∧ completion_of (start (inr container) live) = Throw AlreadyStarted
  ∧ state_of (start (inr container) live) = live
  ∧ events_of (start (inr container) live) = [].
Proof.
  split; [reflexivity|].
  apply (start_twice_rejected (inr container) live). reflexivity.
Defined.

(** C3 as stated fails: the mapping has the entry "package.json", with
    empty content, [start()] succeeds, and "installing" is not fired. *)
Lemma empty_manifest_status_sequence :
  is_Some (empty_manifest !! package_json)
  ∧ completion_of (start (inr container) fresh_empty_manifest) = Normal tt
  ∧ statuses (events_of (start (inr container) fresh_empty_manifest))
    = [booting; mounting; running]
  ∧ statuses (events_of (start (inr container) fresh_empty_manifest))
    ≠ [booting; mounting; installing; running].
Proof.
  split; [by exists []|]. split; [by vm_compute|].
  split; [by vm_compute|]. vm_compute. discriminate.
Qed.

(** C3, amended, on a project with a manifest. *)
Lemma start_status_sequence_witness :
  completion_of (start (inr container) (constructor files_options)) = Normal tt
  ∧ statuses (events_of (start (inr container) (constructor files_options)))
    = [booting; mounting; installing; running].
Proof.
  split; [vm_compute; reflexivity|].
  refine (eq_trans
            (start_status_sequence (inr container) (constructor files_options) _) _);
    vm_compute; reflexivity.
Defined.

(** C4 as stated fails: the key "package.json" is present and the install
    step is not run. *)
Lemma empty_manifest_not_installed :
  is_Some (empty_manifest !! package_json)
  ∧ events_of (start (inr container) fresh_empty_manifest)
    = [onStatusChange booting; WebContainer_boot; onStatusChange mounting;
       wc_mount (webContainerFiles empty_manifest); onStatusChange running;
       wc_spawn (lit "node") [lit "index.js"] None; output_pipeTo]
  ∧ (onStatusChange installing
       ∉ events_of (start (inr container) fresh_empty_manifest))
  ∧ (wc_spawn (lit "npm") [lit "install"] None
       ∉ events_of (start (inr container) fresh_empty_manifest)).
Proof.
  assert (events_of (start (inr container) fresh_empty_manifest)
    = [onStatusChange booting; WebContainer_boot; onStatusChange mounting;
       wc_mount (webContainerFiles empty_manifest); onStatusChange running;
       wc_spawn (lit "node") [lit "index.js"] None; output_pipeTo]) as Hlog.
  { reflexivity. }
  split; [by exists []|]. split; [done|]. rewrite Hlog. split; not_fired.
Qed.

(** C4, amended, on a project with a manifest. *)
Lemma install_iff_nonempty_manifest_witness :
  (onStatusChange installing
     ∈ events_of (start (inr container) (constructor files_options))
   ↔ ∃ content, project !! package_json = Some content ∧ content ≠ [])
  ∧ (wc_spawn (lit "npm") [lit "install"] None
       ∈ events_of (start (inr container) (constructor files_options))
     ↔ ∃ content, project !! package_json = Some content ∧ content ≠ [])
  ∧ (await_exit ∈ events_of (start (inr container) (constructor files_options))
     ↔ (∃ content, project !! package_json = Some content ∧ content ≠ [])
       ∧ ∃ p, spawn container (lit "npm") [lit "install"] None = inr p).
Proof.
  apply (install_iff_nonempty_manifest container project None
           (constructor files_options)); reflexivity.
Defined.

(** C5 as stated fails: after a [start()] that failed at mount, the
    instance is not started and [close()] still fires "teardowned". *)
Lemma close_after_failed_mount_fires_teardowned :
  completion_of (start (inr container_mount_fails) (constructor files_options))
    = Throw (External 2)
  ∧ _started (state_of (start (inr container_mount_fails) (constructor files_options)))
    = false
  ∧ statuses (events_of (close (state_of
      (start (inr container_mount_fails) (constructor files_options)))))
    = [teardowned].
Proof. repeat split; by vm_compute. Qed.

(** C7 on a container whose mount rejects. *)
Lemma start_failure_propagates_witness :
  completion_of (start (inr container_mount_fails) (constructor files_options))
    = Throw (External 2)
  ∧ errors (events_of (start (inr container_mount_fails) (constructor files_options)))
    = [External 2]
  ∧ last (events_of (start (inr container_mount_fails) (constructor files_options)))
    = Some (onerror (External 2))
  ∧ _started (state_of (start (inr container_mount_fails) (constructor files_options)))
    = false.
Proof.
  apply (start_failure_propagates (inr container_mount_fails)
           (constructor files_options) (External 2)); reflexivity.
Defined.

(** C9 as stated fails: the process handle is held, kill throws, and no
    delay is requested before teardown. *)
Lemma close_skips_delay_when_kill_throws :
  _process (live_with unkillable) = Some unkillable
  ∧ events_of (close (live_with unkillable))
    = [onStatusChange unmounting; process_kill; onStatusChange teardowned;
       wc_teardown; onclose]
  ∧ delays (events_of (close (live_with unkillable))) = [].
Proof. repeat split; by vm_compute. Qed.

(** C9, amended, on a process whose kill returns. *)
Lemma close_grace_delay_witness :
  events_of (close live)
  = [onStatusChange unmounting; process_kill; setTimeout 1000;
     onStatusChange teardowned; wc_teardown; onclose].
Proof.
  refine (eq_trans (close_grace_delay live process _) _); reflexivity.
Defined.

(** C10 on a started instance. *)
Lemma operations_preserve_invariant_witness :
  invariant live
  ∧ invariant (state_of (start (inr container) live))
  ∧ invariant (state_of (send ping live))
  ∧ invariant (state_of (close live)).
Proof.
  assert (invariant live) as Hinv.
  { repeat split; vm_compute; eauto; discriminate. }
  split; [exact Hinv|].
  apply (operations_preserve_invariant (H:=object_codec)
           (inr container) ping live Hinv).
Defined.

(** C2 on a process whose input stream rejects the write. *)
Lemma send_write_failure_keeps_lock_witness :
  send ping (live_with deaf) =
    (Throw (External 4),
     set_process (Some (set_input_locked true deaf)) (live_with deaf),
     [input_getWriter; writer_write (ping ++ [LF]); onerror (External 4)])
  ∧ input_locked <$> _process (state_of (send ping (live_with deaf)))
    = Some true
  ∧ send ping (state_of (send ping (live_with deaf))) =
      (Throw WriterLocked, state_of (send ping (live_with deaf)),
       [onerror WriterLocked]).
Proof.
  apply (send_write_failure_keeps_lock (H:=object_codec)
           ping ping (live_with deaf) deaf ping
           (External 4)); reflexivity.
Defined.

(** With the stand-in codec: the message is lost when the colour sequence
    in front of it is cut by the chunk boundary, and delivered otherwise. *)
Example escape_split_loses_message :
  messages (events_of (feed [ESC :: lit "[3"; lit "1m" ++ ping ++ [LF]]
                         (constructor spawn_options))) = []
  ∧ messages (events_of (feed [ESC :: lit "[31m" ++ ping ++ [LF]]
                           (constructor spawn_options))) = [ping].
Proof. split; by vm_compute. Qed.


End Runs.

(** ** More on the frame decoder *)

Section DecoderMore.
Context `{Codec}.
Implicit Types (s line data buffer : list N) (c : N).

Lemma join_lf_split_lines s : CR ∉ s → join_lf (split_lines s) = s.
Proof.
  induction s as [|c s IH]; [done|]. intros Hcr.
  apply not_elem_of_cons in Hcr as [Hc Hs]. specialize (IH Hs).
  pose proof (split_lines_nonempty s) as Hne.
  destruct (decide (c = LF)) as [->|Hlf].
  - rewrite split_lines_lf. destruct (split_lines s) as [|seg segs]; [done|].
    cbn [join_lf]. cbn [app]. by rewrite <- IH.
  - rewrite split_lines_plain by done.
    destruct (split_lines s) as [|seg segs]; [done|].
    rewrite <- IH. by destruct segs.
Qed.

Lemma replace_csi_from_subset k s c : c ∈ replace_csi_from k s → c ∈ s.
Proof.
  revert k. induction s as [|d s IH]; intros k; [done|].
  cbn [replace_csi_from]. destruct k as [|k].
  - destruct (csi_match (d :: s)) as [[|k]|].
    + intros [->|Hc]%elem_of_cons; [by left|right; eauto].
    + intros Hc. right. eauto.
    + intros [->|Hc]%elem_of_cons; [by left|right; eauto].
  - intros Hc. right. eauto.
Qed.

Lemma clean_subset data c : c ∈ clean data → c ∈ data.
Proof.
  unfold clean, replace_cr_esc, replace_csi.
  intros [Hc _]%list_elem_of_In%filter_In. apply list_elem_of_In in Hc.
  by apply replace_csi_from_subset in Hc.
Qed.

Lemma clean_no_cr_esc data : (CR ∉ clean data) ∧ (ESC ∉ clean data).
Proof.
  unfold clean, replace_cr_esc.
  split; intros Hin%list_elem_of_In%filter_In; by destruct Hin as [_ Hin].
Qed.


Lemma reachable_buffer_no_esc options t :
  reachable options t → ESC ∉ _outputBuffer t.
Proof.
  induction 1 as [|boot t _ IH|message t _ IH|t _ IH|data t Hr IH].
  - apply not_elem_of_nil.
  - by rewrite start_keeps_buffer.
  - by rewrite send_keeps_buffer.
  - by rewrite close_run.
  - rewrite _handleProcessOutput_run. unfold state_of. cbn. intros Hesc.
    destruct (reachable_buffer _ _ Hr) as [Hcr _].
    assert (CR ∉ _outputBuffer t ++ clean data) as Hcr'.
    { apply not_elem_of_app. split; [done|]. apply clean_no_cr_esc. }
    pose proof (split_lines_nonempty (_outputBuffer t ++ clean data)) as Hne.
    destruct (exists_last Hne) as (segs & seg & Heq).
    rewrite Heq, last_last in Hesc.
    assert (seg ∈ split_lines (_outputBuffer t ++ clean data)) as Hin.
    { rewrite Heq. apply elem_of_app. right. apply list_elem_of_here. }
    destruct (split_lines_segments _ _ _ Hcr' Hin Hesc) as [Hs _].
    apply elem_of_app in Hs as [Hs|Hs]; [done|].
    by apply clean_no_cr_esc in Hs.
Qed.

(** X1.  The output handler never throws; it fires nothing but message
    callbacks and changes no private field but the output buffer. *)
Theorem output_handler_is_silent data t :
  completion_of (_handleProcessOutput data t) = Normal tt
  ∧ errors (events_of (_handleProcessOutput data t)) = []
  ∧ statuses (events_of (_handleProcessOutput data t)) = []
  ∧ closes (events_of (_handleProcessOutput data t)) = 0%nat
  ∧ set_outputBuffer (_outputBuffer t) (state_of (_handleProcessOutput data t)) = t.
Proof.
  rewrite _handleProcessOutput_run. unfold completion_of, events_of, state_of.
  cbn [fst snd]. split; [done|].
  assert (∀ ms : list JSONRPCMessage,
    errors (onmessage <$> ms) = [] ∧ statuses (onmessage <$> ms) = []
    ∧ closes (onmessage <$> ms) = 0%nat) as Hms.
  { induction ms as [|m ms (He & Hs & Hc)]; [done|]. by cbn. }
  destruct (Hms (omap deliver (removelast
    (split_lines (_outputBuffer t ++ clean data))))) as (He & Hs & Hc).
  repeat split; try done. by destruct t.
Qed.

Lemma trim_start_blank s :
  Forall (λ c, is_space c = true) s → trim_start s = [].
Proof. induction 1 as [|c s Hc _ IH]; [done|]. cbn. by rewrite Hc. Qed.

(** X2.  A line made of white space only reaches neither the parser nor any
    callback, whatever the parser would have made of it. *)
Theorem blank_line_skipped line t :
  Forall (λ c, is_space c = true) line →
  handle_line line t = (Normal tt, t, []).
Proof.
  intros Hblank. rewrite handle_line_run. unfold deliver, trim.
  by rewrite (trim_start_blank _ Hblank).
Qed.

(** X3.  A chunk without a line feed delivers nothing: its cleaned text is
    appended to the buffer. *)
Theorem chunk_without_newline_is_buffered options data t :
  reachable options t →
  LF ∉ data →
  _handleProcessOutput data t =
    (Normal tt, set_outputBuffer (_outputBuffer t ++ clean data) t, []).
Proof.
  intros [Hcr Hlf]%reachable_buffer Hdata.
  rewrite _handleProcessOutput_run, split_lines_one_segment; [done| |].
  - apply not_elem_of_app. split; [done|]. apply clean_no_cr_esc.
  - apply not_elem_of_app. split; [done|]. intros Hc. by apply clean_subset in Hc.
Qed.


Lemma param_not_letter c : is_param c = true → is_letter c = false.
Proof.
  unfold is_param, is_letter. intros Hp.
  destruct (N.leb_spec 65 c), (N.leb_spec c 90), (N.leb_spec 97 c),
    (N.leb_spec c 122); cbn; try done;
    destruct (N.leb_spec 48 c), (N.leb_spec c 57), (N.eqb_spec c 59);
    cbn in Hp; try done; lia.
Qed.

Lemma csi_tail_sequence ps l rest :
  Forall (λ c, is_param c = true) ps → is_letter l = true →
  csi_tail (ps ++ l :: rest) = Some (S (length ps)).
Proof.
  intros Hps Hl. induction Hps as [|c ps Hc _ IH]; cbn.
  - by rewrite Hl.
  - by rewrite (param_not_letter _ Hc), Hc, IH.
Qed.

Lemma replace_csi_from_skip x rest :
  replace_csi_from (length x) (x ++ rest) = replace_csi_from 0 rest.
Proof. induction x as [|c x IH]; [done|]. cbn. apply IH. Qed.

Lemma replace_csi_from_prefix pre s :
  ESC ∉ pre → replace_csi_from 0 (pre ++ s) = pre ++ replace_csi_from 0 s.
Proof.
  induction pre as [|c pre IH]; [done|]. intros Hesc.
  apply not_elem_of_cons in Hesc as [Hc Hpre].
  rewrite <- !app_comm_cons. cbn [replace_csi_from].
  assert (csi_match (c :: pre ++ s) = None) as ->.
  { unfold csi_match. destruct (pre ++ s) as [|b u]; [done|].
    by destruct (N.eqb_spec c ESC). }
  by rewrite IH.
Qed.

Lemma replace_csi_sequence ps l rest :
  Forall (λ c, is_param c = true) ps → is_letter l = true →
  replace_csi_from 0 (ESC :: LBRACKET :: ps ++ l :: rest)
  = replace_csi_from 0 rest.
Proof.
  intros Hps Hl. cbn [replace_csi_from].
  unfold csi_match. cbn. rewrite (csi_tail_sequence ps l rest Hps Hl). cbn.
  change (ps ++ l :: rest) with (ps ++ [l] ++ rest).
  rewrite app_assoc.
  replace (S (length ps)) with (length (ps ++ [l])).
  - apply replace_csi_from_skip.
  - rewrite length_app. cbn. lia.
Qed.

(** X4.  A complete control sequence (ESC, an opening bracket, digits and
    semicolons, one letter) is removed from a chunk without a trace: the
    chunk is cleaned as if the sequence were not there. *)
Theorem control_sequence_removed pre ps l rest :
  ESC ∉ pre →
  Forall (λ c, is_param c = true) ps →
  is_letter l = true →
  clean (pre ++ ESC :: LBRACKET :: ps ++ l :: rest) = clean (pre ++ rest).
Proof.
  intros Hpre Hps Hl. unfold clean, replace_csi.
  rewrite !replace_csi_from_prefix by done.
  by rewrite (replace_csi_sequence ps l rest Hps Hl).
Qed.

Lemma concat_clean_no_cr_esc chunks c :
  c ∈ concat (clean <$> chunks) → c ≠ CR ∧ c ≠ ESC.
Proof.
  induction chunks as [|data rest IH]; cbn.
  - by intros ?%elem_of_nil.
  - intros [Hc|Hc]%elem_of_app; [|by apply IH].
    destruct (clean_no_cr_esc data). split; by intros ->.
Qed.

Lemma frames_lines_clean buffer chunks line :
  CR ∉ buffer → LF ∉ buffer → ESC ∉ buffer →
  line ∈ (frames buffer chunks).1 →
  (CR ∉ line) ∧ (LF ∉ line) ∧ (ESC ∉ line).
Proof.
  intros Hcr Hlf Hesc. rewrite frames_concat by done. cbn [fst]. intros Hline.
  set (s := buffer ++ concat (clean <$> chunks)) in *.
  assert (CR ∉ s) as Hcrs.
  { intros [?|Hc]%elem_of_app; [done|].
    by destruct (concat_clean_no_cr_esc _ _ Hc). }
  assert (ESC ∉ s) as Hescs.
  { intros [?|Hc]%elem_of_app; [done|].
    by destruct (concat_clean_no_cr_esc _ _ Hc). }
  assert (line ∈ split_lines s) as Hin.
  { pose proof (split_lines_nonempty s) as Hne.
    destruct (exists_last Hne) as (segs & seg & Heq). rewrite Heq in *.
    rewrite removelast_last in Hline. apply elem_of_app. by left. }
  repeat split; intros Hc;
    destruct (split_lines_segments _ _ _ Hcrs Hin Hc); done.
Qed.

(** X5.  Every line the decoder takes out of the stream is free of carriage
    returns, line feeds and escape characters. *)
Theorem decoded_lines_are_clean options t chunks line :
  reachable options t →
  line ∈ (frames (_outputBuffer t) chunks).1 →
  (CR ∉ line) ∧ (LF ∉ line) ∧ (ESC ∉ line).
Proof.
  intros Hr. destruct (reachable_buffer _ _ Hr).
  apply frames_lines_clean; try done. by apply (reachable_buffer_no_esc options).
Qed.

(** X6.  Framing loses and invents nothing: the lines taken out, each
    followed by a line feed, and then the buffer left behind are the old
    buffer followed by the cleaned chunks. *)
Theorem framing_conserves_text options t chunks :
  reachable options t →
  join_lf ((frames (_outputBuffer t) chunks).1 ++ [(frames (_outputBuffer t) chunks).2])
  = _outputBuffer t ++ concat (clean <$> chunks).
Proof.
  intros [Hcr Hlf]%reachable_buffer. rewrite frames_concat by done. cbn [fst snd].
  set (s := _outputBuffer t ++ concat (clean <$> chunks)).
  assert (CR ∉ s) as Hcrs.
  { intros [?|Hc]%elem_of_app; [done|].
    by destruct (concat_clean_no_cr_esc _ _ Hc). }
  rewrite <- app_removelast_last by apply split_lines_nonempty.
  by apply join_lf_split_lines.
Qed.


Lemma split_lines_terminated line :
  CR ∉ line → LF ∉ line → split_lines (line ++ [LF]) = [line; []].
Proof.
  induction line as [|c line IH]; [done|]. intros Hcr Hlf.
  apply not_elem_of_cons in Hcr as [? ?]. apply not_elem_of_cons in Hlf as [? ?].
  rewrite <- app_comm_cons, split_lines_plain by done. by rewrite IH.
Qed.

Lemma clean_plain s : CR ∉ s → ESC ∉ s → clean s = s.
Proof.
  intros Hcr Hesc. unfold clean, replace_csi.
  rewrite replace_csi_from_no_esc by done. unfold replace_cr_esc.
  induction s as [|c s IH]; [done|].
  apply not_elem_of_cons in Hcr as [? ?]. apply not_elem_of_cons in Hesc as [? ?].
  cbn [List.filter].
  assert (is_cr_or_esc c = false) as ->.
  { unfold is_cr_or_esc.
    destruct (N.eqb_spec c CR); [done|]. by destruct (N.eqb_spec c ESC). }
  cbn. by rewrite IH.
Qed.

(** X9.  A line with no carriage return and no escape is delivered once,
    whole and after what the buffer held, however it is cut into chunks,
    as soon as its line feed arrives; the buffer is empty afterwards. *)
Theorem line_reassembled options t chunks line :
  reachable options t →
  CR ∉ line → LF ∉ line → ESC ∉ line →
  concat chunks = line ++ [LF] →
  events_of (feed chunks t) = onmessage <$> omap deliver [_outputBuffer t ++ line]
  ∧ _outputBuffer (state_of (feed chunks t)) = [].
Proof.
  intros [Hbcr Hblf]%reachable_buffer Hcr Hlf Hesc Hcat.
  assert (ESC ∉ concat chunks) as Hesc'.
  { rewrite Hcat. apply not_elem_of_app. split; [done|].
    by intros ?%list_elem_of_singleton. }
  rewrite feed_run, frames_concat, clean_concat, Hcat by done.
  fold (replace_csi_from 0 (line ++ [LF])).
  assert (replace_cr_esc (line ++ [LF]) = line ++ [LF]) as ->.
  { rewrite <- (replace_csi_from_no_esc (line ++ [LF])) at 1 by (by rewrite <- Hcat).
    apply clean_plain; [|by rewrite <- Hcat].
    apply not_elem_of_app. split; [done|]. by intros ?%list_elem_of_singleton. }
  rewrite app_assoc, split_lines_terminated; [done| |];
    apply not_elem_of_app; by split.
Qed.

(** X10.  In a chunk without escape characters carriage returns count for
    nothing: a line ended by CR LF is decoded as the line ended by LF. *)
Theorem carriage_returns_ignored data t :
  ESC ∉ data →
  _handleProcessOutput data t
  = _handleProcessOutput (List.filter (λ c, negb (c =? CR)) data) t.
Proof.
  intros Hesc.
  assert (ESC ∉ List.filter (λ c, negb (c =? CR)) data) as Hesc'.
  { intros [Hc _]%list_elem_of_In%filter_In. by apply list_elem_of_In in Hc. }
  rewrite !_handleProcessOutput_run.
  assert (clean (List.filter (λ c, negb (c =? CR)) data) = clean data) as ->; [|done].
  unfold clean, replace_csi. rewrite !replace_csi_from_no_esc by done.
  unfold replace_cr_esc, is_cr_or_esc. clear.
  induction data as [|c data IH]; [done|]. cbn.
  destruct (N.eqb_spec c CR); cbn; [done|].
  rewrite (proj2 (N.eqb_neq c CR)) by done. cbn.
  destruct (c =? ESC); cbn; by rewrite IH.
Qed.

(** X11.  On every observable instance the output buffer holds an open
    line: no line feed, no carriage return and no escape character. *)
Theorem buffer_holds_open_line options t :
  reachable options t →
  (CR ∉ _outputBuffer t) ∧ (LF ∉ _outputBuffer t) ∧ (ESC ∉ _outputBuffer t).
Proof.
  intros Hr. destruct (reachable_buffer _ _ Hr). repeat split; try done.
  by apply (reachable_buffer_no_esc options).
Qed.

End DecoderMore.

(** ** Validation of the decoded lines *)

Section Validation.
Context `{Codec}.



End Validation.

(** ** More on the lifecycle and on [send] *)

Section LifecycleMore.
Context `{Codec}.

(** X12.  Without a process handle, on a fresh instance as after any
    [close()], [send()] rejects with the "not started" error; it writes
    nothing, fires no callback, not even the error callback, and changes
    nothing. *)
Theorem send_without_process_rejected message options t :
  send message (constructor options)
    = (Throw NotStarted, constructor options, [])
  ∧ send message (state_of (close t)) = (Throw NotStarted, state_of (close t), []).
Proof.
  split; [done|]. apply send_not_started. by rewrite close_run.
Qed.

(** X13.  On an input stream that is already locked, [send()] rejects with
    the error of [getWriter()] and fires the error callback with it; nothing
    is written and no field changes. *)
Theorem send_on_locked_stream message t p :
  _process t = Some p →
  input_locked p = true →
  send message t = (Throw WriterLocked, t, [onerror WriterLocked]).
Proof.
  intros Hp Hl. unfold_methods. rewrite Hp. cbn. by rewrite Hl.
Qed.

(** X14.  Sends made one after the other, of messages that
    [JSON.stringify] serialises, to a process whose input is unlocked and
    accepts every write all fulfil; what is written is, in call order, the
    serialisation of each message followed by a line feed; no error
    callback fires and the stream is unlocked at the end. *)
Theorem sends_written_in_order ms jsons t p :
  _process t = Some p →
  input_locked p = false →
  Forall2 (λ m json, JSON_stringify m = Some json) ms jsons →
  (∀ chunk, input_write p chunk = None) →
  completion_of (send_all ms t) = Normal tt
  ∧ written (events_of (send_all ms t)) = (λ json, json ++ [LF]) <$> jsons
  ∧ errors (events_of (send_all ms t)) = []
  ∧ input_locked <$> _process (state_of (send_all ms t)) = Some false.
Proof.
  intros Hp Hl Hjs Hw. revert t p Hp Hl Hw.
  induction Hjs as [|m json ms jsons Hj _ IH]; intros t p Hp Hl Hw.
  { unfold completion_of, events_of, state_of. cbn. rewrite Hp. cbn.
    by rewrite Hl. }
  cbn [send_all]. unfold bind.
  rewrite (send_accepted m t p json Hp Hl Hj (Hw _)).
  destruct (IH (set_process (Some (set_input_locked false p)) t)
              (set_input_locked false p) eq_refl eq_refl Hw)
    as (Hc & Hwr & He & Hlock).
  unfold completion_of, events_of, state_of in *.
  destruct (send_all ms _) as [[c t'] evs]. cbn [fst snd] in *. subst c.
  unfold written, errors in *. cbn. by rewrite Hwr, He.
Qed.


(** X15.  [send()] never touches the lifecycle: the started and
    initialized flags, the environment handle, the output buffer and the
    options are unchanged, a process handle is neither gained nor dropped,
    and neither a status nor the close callback fires. *)
Theorem send_keeps_lifecycle message t :
  _started (state_of (send message t)) = _started t
  ∧ _initialized (state_of (send message t)) = _initialized t
  ∧ _webContainer (state_of (send message t)) = _webContainer t
  ∧ _outputBuffer (state_of (send message t)) = _outputBuffer t
  ∧ _options (state_of (send message t)) = _options t
  ∧ (is_Some (_process (state_of (send message t))) ↔ is_Some (_process t))
  ∧ statuses (events_of (send message t)) = []
  ∧ closes (events_of (send message t)) = 0%nat.
Proof.
  unfold_methods. destruct t as [wc0 p0 started buffer options initialized].
  repeat (cbn; branch); cbn; repeat split; eauto.
Qed.


(** X16.  A [start()] on an instance that is not started fulfils exactly
    when no step of the start-up sequence fails; the exit code of the
    install command plays no part. *)
Theorem start_fulfils_iff boot t :
  _started t = false →
  (completion_of (start boot t) = Normal tt
   ↔ startup_failure boot (_options t) = None).
Proof.
  intros Hs. unfold_methods.
  unfold startup_failure, install_failure, spawn_failure.
  rewrite Hs. cbn.
  destruct boot as [e0|wc]; cbn; [done|].
  destruct (_options t) as [files entrypoint|command args env]; cbn;
    repeat (branch; cbn); done.
Qed.

(** X17.  After a [start()] that fulfilled, the instance is started and
    initialized and holds the booted environment and the process that the
    last spawn returned. *)
Theorem start_success_state wc t :
  completion_of (start (inr wc) t) = Normal tt →
  _started (state_of (start (inr wc) t)) = true
  ∧ _initialized (state_of (start (inr wc) t)) = true
  ∧ _webContainer (state_of (start (inr wc) t)) = Some wc
  ∧ inr <$> _process (state_of (start (inr wc) t))
    = Some match _options t with
           | FileBasedOptions _ entrypoint =>
               spawn wc (lit "node") [entrypoint_or_default entrypoint] None
           | SpawnBasedOptions command args env => spawn wc command args env
           end.
Proof.
  unfold_methods. destruct t as [wc0 p0 started buffer options initialized].
  repeat (cbn; branch); cbn; try discriminate; done.
Qed.

(** X18.  Through a [start()] and the [close()] that follows it, whatever
    their outcome, the statuses fired go strictly forward in the order
    booting, mounting, installing, running, unmounting, teardowned: none is
    repeated and none comes after a later one. *)
Theorem statuses_go_forward boot t :
  StronglySorted lt
    (status_rank <$>
       statuses (events_of (start boot t))
       ++ statuses (events_of (close (state_of (start boot t))))).
Proof.
  rewrite close_run. unfold events_of at 2. cbn [snd]. unfold close_log.
  unfold_methods. destruct t as [wc0 p0 started buffer options initialized].
  repeat (cbn; branch); cbn; repeat constructor.
Qed.


(** X19.  A [start()] that fails once boot has succeeded keeps the booted
    environment in its field and does not tear it down; the process field
    is as before.  The environment is released by the next [close()], which
    calls its teardown. *)
Theorem failed_start_keeps_environment wc t e :
  _started t = false →
  completion_of (start (inr wc) t) = Throw e →
  _webContainer (state_of (start (inr wc) t)) = Some wc
  ∧ _process (state_of (start (inr wc) t)) = _process t
  ∧ (wc_teardown ∉ events_of (start (inr wc) t))
  ∧ (wc_teardown ∈ events_of (close (state_of (start (inr wc) t)))).
Proof.
  intros Hs. rewrite close_run. unfold close_log. unfold_methods.
  destruct t as [wc0 p0 started buffer options initialized].
  cbn in Hs. subst started.
  repeat (cbn; branch); cbn; try discriminate; intros _;
    (split; [done|]); (split; [done|]); (split; [not_fired|fired]).
Qed.

Lemma start_ignores_buffer boot buffer t :
  start boot (set_outputBuffer buffer t)
  = (completion_of (start boot t),
     set_outputBuffer buffer (state_of (start boot t)),
     events_of (start boot t)).
Proof.
  unfold_methods. destruct t as [wc0 p0 started buffer0 options initialized].
  repeat (cbn; branch); reflexivity.
Qed.

(** X20.  After a [close()] the instance can be started again: the call
    completes and fires as on a fresh instance with the same options.  The
    output buffer is the one field that survives: the text left in it
    before the [close()] is still there after the new [start()]. *)
Theorem restart_after_close boot t :
  completion_of (start boot (state_of (close t)))
    = completion_of (start boot (constructor (_options t)))
  ∧ events_of (start boot (state_of (close t)))
    = events_of (start boot (constructor (_options t)))
  ∧ _outputBuffer (state_of (start boot (state_of (close t))))
    = _outputBuffer t.
Proof.
  assert (state_of (close t)
          = set_outputBuffer (_outputBuffer t) (constructor (_options t))) as ->.
  { by rewrite close_run. }
  by rewrite start_ignores_buffer.
Qed.

(** X21.  A [start()] that fulfils has spawned the server last: for the
    files variant the command "node" with one argument, the entrypoint when
    one is given and not empty and "index.js" otherwise, and no options;
    for the spawn variant the command, arguments and environment of the
    options. *)
Theorem server_command boot t :
  completion_of (start boot t) = Normal tt →
  last (spawned (events_of (start boot t))) =
    Some match _options t with
         | FileBasedOptions _ (Some (c :: entrypoint)) =>
             (lit "node", [c :: entrypoint], None)
         | FileBasedOptions _ _ => (lit "node", [lit "index.js"], None)
         | SpawnBasedOptions command args env => (command, args, env)
         end.
Proof.
  unfold_methods. destruct t as [wc0 p0 started buffer options initialized].
  repeat (cbn; branch); cbn; try discriminate; try done.
Qed.

(** X22.  [close()] leaves the instance as the constructor made it, except
    for the output buffer, and a second [close()] in a row changes nothing
    and fires nothing but the close callback. *)
Theorem close_twice t :
  state_of (close t)
    = set_outputBuffer (_outputBuffer t) (constructor (_options t))
  ∧ state_of (close (state_of (close t))) = state_of (close t)
  ∧ events_of (close (state_of (close t))) = [onclose].
Proof. by rewrite !close_run. Qed.


End LifecycleMore.

(** ** The example *)

Section ExampleMore.
Context `{Codec}.

(** *** [runExample] *)

Lemma start_sets_no_timer boot t :
  written (events_of (start boot t)) = []
  ∧ delays (events_of (start boot t)) = [].
Proof.
  unfold_methods. destruct t as [wc0 p0 started buffer options initialized].
  repeat (cbn; branch); done.
Qed.

Lemma start_holds_process wc t :
  completion_of (start (inr wc) t) = Normal tt →
  inr <$> _process (state_of (start (inr wc) t))
  = Some match _options t with
         | FileBasedOptions _ entrypoint =>
             spawn wc (lit "node") [entrypoint_or_default entrypoint] None
         | SpawnBasedOptions command args env => spawn wc command args env
         end.
Proof.
  unfold_methods. destruct t as [wc0 p0 started buffer options initialized].
  repeat (cbn; branch); cbn; try discriminate; done.
Qed.

Lemma example_has_manifest serverCode manifest :
  manifest ≠ [] →
  match example_options serverCode manifest with
  | FileBasedOptions files _ => has_package_json files = true
  | SpawnBasedOptions _ _ _ => False
  end.
Proof.
  intros Hne. apply has_package_json_spec. exists manifest.
  split; [apply lookup_insert_eq|done].
Qed.

(** X23.  [runExample], in a container where no start-up step fails and
    whose server process takes input: the call fulfils; the statuses fired
    are booting, mounting, installing, running; after the 2000 ms pause the
    two requests, serialised by [JSON.stringify], are written in order, each
    with its line feed; the 3000 ms timer is set last and no error callback
    fires. *)
Theorem example_runs wc p serverCode manifest list_tools call_tool json1 json2 :
  manifest ≠ [] →
  startup_failure (inr wc) (example_options serverCode manifest) = None →
  spawn wc (lit "node") [lit "index.js"] None = inr p →
  input_locked p = false →
  JSON_stringify list_tools = Some json1 →
  JSON_stringify call_tool = Some json2 →
  (∀ chunk, input_write p chunk = None) →
  completion_of (runExample (inr wc) list_tools call_tool
                   (constructor (example_options serverCode manifest)))
    = Normal tt
  ∧ statuses (events_of (runExample (inr wc) list_tools call_tool
                (constructor (example_options serverCode manifest))))
    = [booting; mounting; installing; running]
  ∧ written (events_of (runExample (inr wc) list_tools call_tool
               (constructor (example_options serverCode manifest))))
    = [json1 ++ [LF]; json2 ++ [LF]]
  ∧ delays (events_of (runExample (inr wc) list_tools call_tool
              (constructor (example_options serverCode manifest))))
    = [2000; 3000]
  ∧ errors (events_of (runExample (inr wc) list_tools call_tool
              (constructor (example_options serverCode manifest))))
    = [].
Proof.
  intros Hne Hok Hspawn Hl Hj1 Hj2 Hw.
  set (t0 := constructor (example_options serverCode manifest)).
  destruct (start_without_failure (inr wc) t0 eq_refl Hok) as (Hc & He & _ & _).
  pose proof (start_statuses_by_guard (inr wc) t0 Hc) as Hst.
  pose proof (example_has_manifest serverCode manifest Hne) as Hm.
  pose proof (start_holds_process wc t0 Hc) as Hp.
  destruct (start_sets_no_timer (inr wc) t0) as [Hwr Hd].
  cbn [t0 constructor _options example_options] in Hst, Hp.
  unfold example_options in Hm. rewrite Hm in Hst.
  cbn [entrypoint_or_default] in Hp. rewrite Hspawn in Hp.
  unfold completion_of, events_of, state_of in *.
  destruct (start (inr wc) t0) as [[c t1] evs1] eqn:Hstart.
  cbn [fst snd] in *. subst c.
  destruct (_process t1) as [p1|] eqn:Hp1; [|done]. injection Hp as ->.
  assert (runExample (inr wc) list_tools call_tool t0 =
    (Normal tt,
     set_process (Some (set_input_locked false p))
       (set_process (Some (set_input_locked false p)) t1),
     evs1 ++ [setTimeout 2000]
     ++ ([input_getWriter; writer_write (json1 ++ [LF]); writer_releaseLock]
         ++ [input_getWriter; writer_write (json2 ++ [LF]); writer_releaseLock]
         ++ [setTimeout 3000]))) as ->.
  { unfold runExample, bind. rewrite Hstart. unfold log. cbv beta iota.
    rewrite (send_accepted list_tools t1 p json1 Hp1 Hl Hj1 (Hw _)).
    cbv beta iota.
    by rewrite (send_accepted call_tool
                  (set_process (Some (set_input_locked false p)) t1)
                  (set_input_locked false p) json2 eq_refl eq_refl Hj2 (Hw _)). }
  cbn [fst snd]. unfold statuses, written, delays, errors in *.
  rewrite !omap_app, Hst, Hwr, Hd, He. done.
Qed.

(** X24.  [runExample] when a start-up step fails: the call rejects with
    the error of that step; nothing is written to the server and no timer
    is set, the one that would call [close()] included.  (The example gives
    the transport no error callback, so the error reaches its caller
    only.) *)
Theorem example_start_fails boot serverCode manifest list_tools call_tool e :
  startup_failure boot (example_options serverCode manifest) = Some e →
  completion_of (runExample boot list_tools call_tool
                   (constructor (example_options serverCode manifest)))
    = Throw e
  ∧ written (events_of (runExample boot list_tools call_tool
               (constructor (example_options serverCode manifest))))
    = []
  ∧ delays (events_of (runExample boot list_tools call_tool
              (constructor (example_options serverCode manifest))))
    = [].
Proof.
  intros Hfail.
  set (t0 := constructor (example_options serverCode manifest)).
  assert (completion_of (start boot t0) = Throw e) as Hc.
  { clear -Hfail. revert Hfail. unfold_methods.
    unfold startup_failure, install_failure, spawn_failure. cbn.
    destruct boot as [e0|wc]; cbn; [intros [= ->]; done|].
    repeat (branch; cbn); intros [= <-]; done. }
  destruct (start_sets_no_timer boot t0) as [Hwr Hd].
  unfold runExample, bind.
  unfold completion_of, events_of, state_of in *.
  destruct (start boot t0) as [[c t1] evs1]. cbn [fst snd] in *. by subst c.
Qed.

End ExampleMore.

(** ** More closed runs *)

Module MoreRuns.
Import Scenario Fixtures.

(** C5, amended: a fresh instance, a started one, and an instance whose
    start failed at mount and then again at boot. *)
Lemma close_always_completes_witness :
  (completion_of (close live) = Normal tt
   ∧ closes (events_of (close live)) = 1%nat
   ∧ statuses (events_of (close live)) = [unmounting; teardowned])
  ∧ statuses (events_of (close (constructor files_options))) = []
  ∧ statuses (events_of (close (state_of
      (start (inl (External 1))
         (state_of (start (inr container_mount_fails)
                      (constructor files_options)))))))
    = [teardowned].
Proof.
  apply (close_always_completes (H:=object_codec) live
           (state_of (start (inr container_mount_fails)
                        (constructor files_options)))
           files_options (inl (External 1))).
  reflexivity.
Defined.


(** X2 on a space followed by a tab. *)
Lemma blank_line_skipped_witness :
  handle_line [32; 9] (constructor spawn_options)
  = (Normal tt, constructor spawn_options, []).
Proof.
  apply (blank_line_skipped (H:=object_codec) [32; 9] (constructor spawn_options)).
  repeat constructor.
Defined.

(** X3 on the first half of a message. *)
Lemma chunk_without_newline_is_buffered_witness :
  _handleProcessOutput (lit "{partial") (constructor spawn_options)
  = (Normal tt,
     set_outputBuffer (_outputBuffer (constructor spawn_options)
                       ++ clean (lit "{partial"))
       (constructor spawn_options),
     []).
Proof.
  apply (chunk_without_newline_is_buffered (H:=object_codec) spawn_options
           (lit "{partial") (constructor spawn_options)).
  - apply reach_constructor.
  - compute_done.
Defined.

(** X4 on the colour sequence ESC [ 1 ; 3 1 m between two letters. *)
Lemma control_sequence_removed_witness :
  clean (lit "a" ++ ESC :: LBRACKET :: lit "1;31" ++ 109 :: lit "b")
  = clean (lit "a" ++ lit "b").
Proof.
  apply (control_sequence_removed (lit "a") (lit "1;31") 109 (lit "b")).
  - compute_done.
  - repeat constructor.
  - reflexivity.
Defined.

(** X5 on one complete message. *)
Lemma decoded_lines_are_clean_witness :
  (CR ∉ ping) ∧ (LF ∉ ping) ∧ (ESC ∉ ping).
Proof.
  apply (decoded_lines_are_clean (H:=object_codec) spawn_options
           (constructor spawn_options) [ping ++ [LF]] ping).
  - apply reach_constructor.
  - compute_done.
Defined.

(** X6 on a line cut in two chunks, followed by the start of another. *)
Lemma framing_conserves_text_witness :
  join_lf ((frames (_outputBuffer (constructor spawn_options))
              [lit "ab"; LF :: lit "c"]).1
           ++ [(frames (_outputBuffer (constructor spawn_options))
                  [lit "ab"; LF :: lit "c"]).2])
  = _outputBuffer (constructor spawn_options)
    ++ concat (clean <$> [lit "ab"; LF :: lit "c"]).
Proof.
  apply (framing_conserves_text (H:=object_codec) spawn_options
           (constructor spawn_options) [lit "ab"; LF :: lit "c"]).
  apply reach_constructor.
Defined.

(** X7 on a message cut after five code units. *)
Lemma reachable_chunking_invariant_witness :
  feed [take 5 ping; drop 5 ping ++ [LF]] (constructor spawn_options)
  = feed [ping ++ [LF]] (constructor spawn_options).
Proof.
  apply (reachable_chunking_invariant (H:=object_codec) spawn_options
           (constructor spawn_options)
           [take 5 ping; drop 5 ping ++ [LF]] [ping ++ [LF]]).
  - apply reach_constructor.
  - compute_done.
  - reflexivity.
Defined.

(** X9 on a message cut after five code units. *)
Lemma line_reassembled_witness :
  events_of (feed [take 5 ping; drop 5 ping ++ [LF]] (constructor spawn_options))
  = onmessage <$> omap deliver [_outputBuffer (constructor spawn_options) ++ ping]
  ∧ _outputBuffer (state_of (feed [take 5 ping; drop 5 ping ++ [LF]]
                               (constructor spawn_options))) = [].
Proof.
  apply (line_reassembled (H:=object_codec) spawn_options
           (constructor spawn_options)
           [take 5 ping; drop 5 ping ++ [LF]] ping).
  - apply reach_constructor.
  - compute_done.
  - compute_done.
  - compute_done.
  - reflexivity.
Defined.

(** X10 on a line ended by CR LF. *)
Lemma carriage_returns_ignored_witness :
  _handleProcessOutput (ping ++ [CR; LF]) (constructor spawn_options)
  = _handleProcessOutput (List.filter (λ c, negb (c =? CR)) (ping ++ [CR; LF]))
      (constructor spawn_options).
Proof.
  apply (carriage_returns_ignored (H:=object_codec) (ping ++ [CR; LF])
           (constructor spawn_options)).
  compute_done.
Defined.

(** X11 after a chunk that ends in the middle of a line. *)
Lemma buffer_holds_open_line_witness :
  (CR ∉ _outputBuffer (state_of (_handleProcessOutput (lit "ab")
                                   (constructor spawn_options))))
  ∧ (LF ∉ _outputBuffer (state_of (_handleProcessOutput (lit "ab")
                                     (constructor spawn_options))))
  ∧ (ESC ∉ _outputBuffer (state_of (_handleProcessOutput (lit "ab")
                                      (constructor spawn_options)))).
Proof.
  apply (buffer_holds_open_line (H:=object_codec) spawn_options).
  apply reach_output, reach_constructor.
Defined.

(** X13 on a server whose input is held by another writer. *)
Lemma send_on_locked_stream_witness :
  send ping (live_with busy)
  = (Throw WriterLocked, live_with busy, [onerror WriterLocked]).
Proof.
  apply (send_on_locked_stream (H:=object_codec) ping (live_with busy) busy);
    reflexivity.
Defined.

(** X14 on two messages. *)
Lemma sends_written_in_order_witness :
  completion_of (send_all [ping; ping] live) = Normal tt
  ∧ written (events_of (send_all [ping; ping] live))
    = (λ json, json ++ [LF]) <$> [ping; ping]
  ∧ errors (events_of (send_all [ping; ping] live)) = []
  ∧ input_locked <$> _process (state_of (send_all [ping; ping] live))
    = Some false.
Proof.
  apply (sends_written_in_order (H:=object_codec) [ping; ping] [ping; ping]
           live process); try reflexivity.
  repeat constructor.
Defined.

(** X16 on a project started in a container where every step succeeds. *)
Lemma start_fulfils_iff_witness :
  completion_of (start (inr container) (constructor files_options)) = Normal tt
  ↔ startup_failure (inr container) (_options (constructor files_options)) = None.
Proof.
  apply (start_fulfils_iff (H:=object_codec) (inr container)
           (constructor files_options)).
  reflexivity.
Defined.

(** X17 on the same start. *)
Lemma start_success_state_witness :
  _started (state_of (start (inr container) (constructor files_options))) = true
  ∧ _initialized (state_of (start (inr container) (constructor files_options)))
    = true
  ∧ _webContainer (state_of (start (inr container) (constructor files_options)))
    = Some container
  ∧ inr <$> _process (state_of (start (inr container) (constructor files_options)))
    = Some (spawn container (lit "node") [lit "index.js"] None).
Proof.
  apply (start_success_state (H:=object_codec) container
           (constructor files_options)).
  vm_compute. reflexivity.
Defined.

(** X19 on a container whose spawn rejects. *)
Lemma failed_start_keeps_environment_witness :
  _webContainer (state_of (start (inr container_spawn_fails)
                             (constructor spawn_options)))
    = Some container_spawn_fails
  ∧ _process (state_of (start (inr container_spawn_fails)
                          (constructor spawn_options)))
    = _process (constructor spawn_options)
  ∧ (wc_teardown ∉ events_of (start (inr container_spawn_fails)
                                (constructor spawn_options)))
  ∧ (wc_teardown ∈ events_of (close (state_of
        (start (inr container_spawn_fails) (constructor spawn_options))))).
Proof.
  apply (failed_start_keeps_environment (H:=object_codec) container_spawn_fails
           (constructor spawn_options) (External 5)).
  - reflexivity.
  - vm_compute. reflexivity.
Defined.

(** X21 on a project without entrypoint. *)
Lemma server_command_witness :
  last (spawned (events_of (start (inr container) (constructor files_options))))
  = Some (lit "node", [lit "index.js"], None).
Proof.
  apply (server_command (H:=object_codec) (inr container)
           (constructor files_options)).
  vm_compute. reflexivity.
Defined.

(** X23 in a container where every step succeeds. *)
Lemma example_runs_witness :
  completion_of (runExample (inr container) ping ping
                   (constructor (example_options (lit "main()") (lit "{}"))))
    = Normal tt
  ∧ statuses (events_of (runExample (inr container) ping ping
                (constructor (example_options (lit "main()") (lit "{}")))))
    = [booting; mounting; installing; running]
  ∧ written (events_of (runExample (inr container) ping ping
               (constructor (example_options (lit "main()") (lit "{}")))))
    = [ping ++ [LF]; ping ++ [LF]]
  ∧ delays (events_of (runExample (inr container) ping ping
              (constructor (example_options (lit "main()") (lit "{}")))))
    = [2000; 3000]
  ∧ errors (events_of (runExample (inr container) ping ping
              (constructor (example_options (lit "main()") (lit "{}")))))
    = [].
Proof.
  apply (example_runs (H:=object_codec) container process
           (lit "main()") (lit "{}") ping ping ping ping).
  - discriminate.
  - vm_compute. reflexivity.
  - reflexivity.
  - reflexivity.
  - reflexivity.
  - reflexivity.
  - reflexivity.
Defined.

(** X24 when boot rejects. *)
Lemma example_start_fails_witness :
  completion_of (runExample (inl (External 1)) ping ping
                   (constructor (example_options (lit "main()") (lit "{}"))))
    = Throw (External 1)
  ∧ written (events_of (runExample (inl (External 1)) ping ping
               (constructor (example_options (lit "main()") (lit "{}")))))
    = []
  ∧ delays (events_of (runExample (inl (External 1)) ping ping
              (constructor (example_options (lit "main()") (lit "{}")))))
    = [].
Proof.
  apply (example_start_fails (H:=object_codec) (inl (External 1))
           (lit "main()") (lit "{}") ping ping (External 1)).
  reflexivity.
Defined.

End MoreRuns.
